(** * gollama-ui: the chat streaming orchestrator

    A shallow embedding of the function-calling chat handler
    (internal/handlers/chat.go), of the tool executor it calls
    (package handlers, [ToolExecutor]) and of the llama.cpp streaming
    client (package client, [ChatStream]), followed by the properties
    of the orchestration that the design document states.

    Go strings are [string]; a Go [map[string]T] is a [gmap string T]
    together with an oracle for the order in which a [range] statement
    visits it (the language leaves that order unspecified); a Go error
    is carried by its message; the channel a stream is delivered on is
    the list of the responses sent on it before it is closed, and the
    [select] between that channel and [ctx.Done()] is decided by a
    schedule. The collaborators outside the repository ([encoding/json],
    the HTTP round trip, the search, news and Sentinel services) are
    parameters. *)

From stdpp Require Import base strings list gmap fin_maps pretty.

Open Scope string_scope.
Open Scope list_scope.

Set Warnings "-clear-no-such-hyp".

(** ** Results and errors *)

(** A Go [(T, error)] pair: either the value or the error's message. *)
Inductive Result (A : Type) : Type :=
  | Ok (a : A)
  | Err (e : string).
Arguments Ok {A} a.
Arguments Err {A} e.

#[global] Instance Result_eq_dec `{EqDecision A} : EqDecision (Result A).
Proof. solve_decision. Defined.

Definition is_Err {A} (r : Result A) : bool :=
  match r with Err _ => true | Ok _ => false end.

(** ** The client package's data model *)

Record FunctionCall := mkFunctionCall {
  fc_Name : string;
  fc_Arguments : string }.

Record ToolCall := mkToolCall {
  tc_ID : string;
  tc_Type : string;
  tc_Function : FunctionCall }.

Record ChatMessage := mkChatMessage {
  msg_Role : string;
  msg_Content : string;
  msg_ToolCallID : string;
  msg_ToolCalls : list ToolCall }.

(** A tool descriptor; the JSON parameter schema it carries is not
    inspected by the handler and is left out. *)
Record Tool := mkTool {
  tool_Type : string;
  tool_Name : string;
  tool_Description : string }.

Record ChatRequest := mkChatRequest {
  req_Model : string;
  req_Messages : list ChatMessage;
  req_Stream : bool;
  req_Tools : list Tool }.

Record ChatResponse := mkChatResponse {
  resp_Model : string;
  resp_Message : ChatMessage;
  resp_Done : bool;
  resp_DoneReason : string;
  resp_Error : string }.

(** The chunks of the OpenAI-compatible stream; a finish reason that is
    absent or null is [None]. *)
Record OpenAIChoice := mkOpenAIChoice {
  choice_Index : Z;
  choice_Delta : ChatMessage;
  choice_FinishReason : option string }.

Record OpenAIChatChunk := mkOpenAIChatChunk {
  chunk_ID : string;
  chunk_Object : string;
  chunk_Created : Z;
  chunk_Model : string;
  chunk_Choices : list OpenAIChoice }.

#[global] Instance FunctionCall_eq_dec : EqDecision FunctionCall.
Proof. solve_decision. Defined.
#[global] Instance ToolCall_eq_dec : EqDecision ToolCall.
Proof. solve_decision. Defined.
#[global] Instance ChatMessage_eq_dec : EqDecision ChatMessage.
Proof. solve_decision. Defined.
#[global] Instance Tool_eq_dec : EqDecision Tool.
Proof. solve_decision. Defined.
#[global] Instance ChatRequest_eq_dec : EqDecision ChatRequest.
Proof. solve_decision. Defined.
#[global] Instance ChatResponse_eq_dec : EqDecision ChatResponse.
Proof. solve_decision. Defined.

(** The zero value that indexing a Go map returns for a missing key. *)
Definition ToolCall_zero : ToolCall := mkToolCall "" "" (mkFunctionCall "" "").

Definition ChatMessage_zero : ChatMessage := mkChatMessage "" "" "" [].

(** [existing.Type = t], [existing.ID = id], [existing.Function.Name = n]
    and [existing.Function.Arguments += frag] on a record held by value. *)
Definition set_Type (t : string) (tc : ToolCall) : ToolCall :=
  mkToolCall (tc_ID tc) t (tc_Function tc).

Definition set_ID (id : string) (tc : ToolCall) : ToolCall :=
  mkToolCall id (tc_Type tc) (tc_Function tc).

Definition set_Name (n : string) (tc : ToolCall) : ToolCall :=
  mkToolCall (tc_ID tc) (tc_Type tc)
    (mkFunctionCall n (fc_Arguments (tc_Function tc))).

Definition add_Arguments (frag : string) (tc : ToolCall) : ToolCall :=
  mkToolCall (tc_ID tc) (tc_Type tc)
    (mkFunctionCall (fc_Name (tc_Function tc))
                    (fc_Arguments (tc_Function tc) +:+ frag)).

(** The test [tc.ID != "" && tc.Function.Name != ""] that both
    conversions of the map to a slice apply (chat.go lines 113 and 188)
    and that the argument-only branch applies (line 148). *)
Definition eligible (tc : ToolCall) : Prop :=
  tc_ID tc ≠ "" ∧ fc_Name (tc_Function tc) ≠ "".

#[global] Instance eligible_dec tc : Decision (eligible tc).
Proof. unfold eligible. apply _. Defined.

(** ** Ranging over a Go map

    [for _, v := range m] visits every entry once, in an order the
    language does not fix and that may change from one [range]
    statement to the next. A [MapRange] chooses that order for the
    n-th [range] statement a handler executes. *)
Record MapRange := mkMapRange {
  range_at : nat → gmap string ToolCall → list (string * ToolCall);
  range_at_perm : ∀ n m, range_at n m ≡ₚ map_to_list m }.

(** Two runtimes: one visits keys in the order of [map_to_list], the
    other in the opposite order. *)
Definition range_forward : MapRange :=
  mkMapRange (λ _ m, map_to_list m) (λ _ _, reflexivity _).

Definition range_backward : MapRange :=
  mkMapRange (λ _ m, reverse (map_to_list m))
             (λ _ m, reverse_Permutation (map_to_list m)).

(** ** The tool-call accumulator (chat.go lines 127-157) *)

(** The request-scoped map and the number of [range] statements
    executed over it so far. *)
Record Accum := mkAccum {
  toolCallsMap : gmap string ToolCall;
  ranges : nat }.

Definition Accum_empty : Accum := mkAccum ∅ 0.

(** Lines 147-154: the loop over the map that appends the fragment to
    the first visited record with id and name, stores it back under its
    id and breaks. *)
Fixpoint appendToFirst (frag : string) (visit : list (string * ToolCall))
    (m : gmap string ToolCall) : gmap string ToolCall :=
  match visit with
  | [] => m
  | (_, existing) :: rest =>
      if decide (eligible existing)
      then <[tc_ID existing := add_Arguments frag existing]> m
      else appendToFirst frag rest m
  end.

(** Lines 130-155: the body of the loop over one response's tool calls. *)
Definition mergeToolCall (R : MapRange) (a : Accum) (tc : ToolCall) : Accum :=
  let m := toolCallsMap a in
  if decide (tc_ID tc ≠ "") then
    let existing := default ToolCall_zero (m !! tc_ID tc) in
    let existing :=
      if decide (tc_Type tc ≠ "") then set_Type (tc_Type tc) existing
      else existing in
    let existing := set_ID (tc_ID tc) existing in
    let existing :=
      if decide (fc_Name (tc_Function tc) ≠ "")
      then set_Name (fc_Name (tc_Function tc)) existing
      else existing in
    let existing :=
      if decide (fc_Arguments (tc_Function tc) ≠ "")
      then add_Arguments (fc_Arguments (tc_Function tc)) existing
      else existing in
    mkAccum (<[tc_ID tc := existing]> m) (ranges a)
  else if decide (fc_Arguments (tc_Function tc) ≠ ""
                  ∧ fc_Name (tc_Function tc) = "") then
    mkAccum (appendToFirst (fc_Arguments (tc_Function tc))
               (range_at R (ranges a) m) m)
            (S (ranges a))
  else a.

(** Lines 128-157 over a whole sequence of deltas. *)
Definition accumulate (R : MapRange) (a : Accum) (deltas : list ToolCall) : Accum :=
  foldl (mergeToolCall R) a deltas.

(** Lines 110-116 and 186-191: the map converted back to a slice, keeping
    the records with id and name, in the order the [range] visits them. *)
Definition eligibleCalls (R : MapRange) (a : Accum) : list ToolCall :=
  filter eligible ((range_at R (ranges a) (toolCallsMap a)).*2).

(** A delta as the upstream protocol sends it. *)
Definition delta (id name frag : string) : ToolCall :=
  mkToolCall id "" (mkFunctionCall name frag).

(** ** The tool executor (package handlers, tools.go) *)

(** What [encoding/json] stores in an [interface{}]. A number is kept as
    the integer that [int(f)] makes of it, the only use the handlers
    have for one. *)
#[warnings="-register-all"]
Inductive JValue : Type :=
  | JNull
  | JBool (b : bool)
  | JNumber (n : Z)
  | JString (s : string)
  | JArray (items : list JValue)
  | JObject (fields : list (string * JValue)).

(** The anonymous struct that [executeAnalyzePortfolio] decodes into. *)
Record PortfolioArgs := mkPortfolioArgs {
  QueryType : string;
  FocusArea : string }.

(** The calls into [encoding/json], one per target type. [Marshal] of a
    response only matters through its success or failure. *)
Record JSON := mkJSON {
  Unmarshal_map : string → Result (gmap string JValue);
  Unmarshal_portfolio : string → Result PortfolioArgs;
  Unmarshal_chunk : string → Result OpenAIChatChunk;
  Marshal : ChatResponse → Result string }.

Record SearchResult := mkSearchResult {
  sr_Title : string;
  sr_Href : string;
  sr_Body : string }.

(** [na_Published] is the publication time already formatted with the
    layout of line 102. *)
Record NewsArticle := mkNewsArticle {
  na_Title : string;
  na_Source : string;
  na_Published : string;
  na_Description : string;
  na_Link : string }.

Record ToolSettings := mkToolSettings {
  EnableWebSearch : bool;
  EnableFeeds : bool;
  EnableSentinel : bool }.

(** The collaborators behind the executor: the search and news clients,
    the settings snapshot, and the four portfolio analyses (tools.go
    lines 144-313), whose bodies query the Sentinel API and format its
    floating-point figures. *)
Record Backends := mkBackends {
  Search : string → Z → Result (list SearchResult);
  FetchNews : string → Z → Result (list NewsArticle);
  GetAvailableTopics : list string;
  toolSettings : ToolSettings;
  executePortfolioOverview : Result string;
  executeOpportunitiesAnalysis : Result string;
  executeRiskAnalysis : Result string;
  executeMarketContextAnalysis : Result string }.

Definition nl : string := String (Ascii.ascii_of_nat 10) "".

(** The type assertion [v.(string)] on a map index. *)
Definition as_string (v : option JValue) : string * bool :=
  match v with
  | Some (JString s) => (s, true)
  | _ => ("", false)
  end.

(** The type assertion [v.(float64)] followed by [int(_)]. *)
Definition as_int (v : option JValue) : Z * bool :=
  match v with
  | Some (JNumber n) => (n, true)
  | _ => (0%Z, false)
  end.

Fixpoint Join (elems : list string) (sep : string) : string :=
  match elems with
  | [] => ""
  | [e] => e
  | e :: rest => e +:+ sep +:+ Join rest sep
  end.

Fixpoint formatSearchResults (i : nat) (results : list SearchResult) : string :=
  match results with
  | [] => ""
  | result :: rest =>
      pretty (i + 1) +:+ ". **" +:+ sr_Title result +:+ "**" +:+ nl
      +:+ "   URL: " +:+ sr_Href result +:+ nl
      +:+ "   " +:+ sr_Body result +:+ nl +:+ nl
      +:+ formatSearchResults (S i) rest
  end.

Fixpoint formatArticles (i : nat) (articles : list NewsArticle) : string :=
  match articles with
  | [] => ""
  | article :: rest =>
      pretty (i + 1) +:+ ". **" +:+ na_Title article +:+ "**" +:+ nl
      +:+ "   Source: " +:+ na_Source article +:+ nl
      +:+ "   Published: " +:+ na_Published article +:+ nl
      +:+ (if decide (na_Description article ≠ "")
           then "   " +:+ na_Description article +:+ nl else "")
      +:+ "   Read more: " +:+ na_Link article +:+ nl +:+ nl
      +:+ formatArticles (S i) rest
  end.

(** tools.go lines 318 and 322-326: the header of the full analysis and
    what one analysis adds to the report. *)
Definition fullAnalysisHeader : string :=
  "# 📊 Complete Portfolio Analysis" +:+ nl +:+ nl.

Definition fullAnalysisSection (title : string) (analysis : Result string)
    (result : string) : string :=
  match analysis with
  | Ok text => result +:+ title +:+ nl +:+ text +:+ nl
  | Err _ => result
  end.

Section Executor.
Context (J : JSON) (B : Backends).

(** tools.go lines 51-77. *)
Definition executeWebSearch (args : gmap string JValue) : Result string :=
  let '(query, ok) := as_string (args !! "query") in
  if negb ok || bool_decide (query = "") then
    Err "query parameter is required"
  else
    let maxResults :=
      let '(mr, ok) := as_int (args !! "max_results") in
      if ok then mr else 5%Z in
    match Search B query maxResults with
    | Err e => Err ("search failed: " +:+ e)
    | Ok results =>
        Ok ("Search results for '" +:+ query +:+ "':" +:+ nl +:+ nl
            +:+ formatSearchResults 0 results)
    end.

(** tools.go lines 80-110. *)
Definition executeGetNews (args : gmap string JValue) : Result string :=
  let '(topic, ok) := as_string (args !! "topic") in
  let topic := if negb ok || bool_decide (topic = "") then "world" else topic in
  let maxArticles :=
    let '(ma, ok) := as_int (args !! "max_articles") in
    if ok then ma else 10%Z in
  match FetchNews B topic maxArticles with
  | Err e => Err ("failed to fetch news: " +:+ e)
  | Ok articles =>
      Ok ("Latest " +:+ topic +:+ " news:" +:+ nl +:+ nl
          +:+ formatArticles 0 articles)
  end.

(** tools.go lines 316-353: the report starts with the header, each
    analysis that returns no error adds its section, and the error
    returned is always nil. *)
Definition executeFullAnalysis (focusArea : string) : Result string :=
  let result := fullAnalysisHeader in
  let result :=
    fullAnalysisSection "## Portfolio State" (executePortfolioOverview B)
                        result in
  let result :=
    fullAnalysisSection "## Trading Opportunities"
                        (executeOpportunitiesAnalysis B) result in
  let result :=
    fullAnalysisSection "## Risk Assessment" (executeRiskAnalysis B) result in
  let result :=
    fullAnalysisSection "## Market Context" (executeMarketContextAnalysis B)
                        result in
  Ok result.

(** tools.go lines 113-141. *)
Definition executeAnalyzePortfolio (arguments : string) : Result string :=
  match Unmarshal_portfolio J arguments with
  | Err e => Err ("invalid arguments: " +:+ e)
  | Ok args =>
      if decide (QueryType args = "") then Err "query_type is required"
      else if decide (QueryType args = "overview") then
        executePortfolioOverview B
      else if decide (QueryType args = "opportunities") then
        executeOpportunitiesAnalysis B
      else if decide (QueryType args = "risk") then
        executeRiskAnalysis B
      else if decide (QueryType args = "market_context") then
        executeMarketContextAnalysis B
      else if decide (QueryType args = "full_analysis") then
        executeFullAnalysis (FocusArea args)
      else Err ("unknown query_type: " +:+ QueryType args)
  end.

(** tools.go lines 31-48. *)
Definition ExecuteToolCall (name arguments : string) : Result string :=
  match Unmarshal_map J arguments with
  | Err e => Err ("invalid arguments: " +:+ e)
  | Ok args =>
      if decide (name = "web_search") then executeWebSearch args
      else if decide (name = "get_news") then executeGetNews args
      else if decide (name = "analyze_portfolio") then
        executeAnalyzePortfolio arguments
      else Err ("unknown tool: " +:+ name)
  end.

(** tools.go lines 356-449, without the parameter schemas. *)
Definition GetAvailableTools : list Tool :=
  let settings := toolSettings B in
  let tools := [] in
  let tools :=
    if EnableWebSearch settings then
      tools ++ [mkTool "function" "web_search"
        "Search the web for current information. Use this when you need up-to-date information or facts not in your training data."]
    else tools in
  let tools :=
    if EnableFeeds settings then
      let topics := GetAvailableTopics B in
      let toolDescription :=
        if decide (length topics = 0) then
          "Get latest news articles. No feeds are currently configured."
        else
          "Get latest news articles. Available topics: "
          +:+ Join topics ", "
          +:+ ". Call this tool once per topic if you need multiple categories." in
      tools ++ [mkTool "function" "get_news" toolDescription]
    else tools in
  let tools :=
    if EnableSentinel settings then
      tools ++ [mkTool "function" "analyze_portfolio"
        "Analyze the Sentinel portfolio management system to get current portfolio state, trading opportunities, risk metrics, and market context. Use this to answer questions about portfolio health, performance, allocation, or to suggest next actions."]
    else tools in
  tools.
End Executor.

(** ** The streaming client (package client, llama.cpp back end) *)

(** What sending the request of [ChatStream] can come to: the body
    cannot be marshalled, the request cannot be built, [httpClient.Do]
    returns an error, the status is not 200 (with the body read), or the
    status is 200 and the scanner reads the body as [lines], ending
    cleanly or with [scanErr]. *)
Inductive HTTPResult : Type :=
  | HTTPNotMarshalled (e : string)
  | HTTPNotCreated (e : string)
  | HTTPFailed (e : string)
  | HTTPStatus (status : Z) (body : string)
  | HTTPStream (lines : list string) (scanErr : option string).

Definition TrimPrefix (s prefix : string) : string :=
  if String.prefix prefix s
  then String.substring (String.length prefix)
         (String.length s - String.length prefix) s
  else s.

Section Client.
Context (J : JSON).

(** The response sent for a chunk's first choice (lines 257-266). *)
Definition choiceResponse (chunk : OpenAIChatChunk) (choice : OpenAIChoice)
    : ChatResponse :=
  mkChatResponse (chunk_Model chunk)
    (mkChatMessage (msg_Role (choice_Delta choice))
                   (msg_Content (choice_Delta choice))
                   ""
                   (msg_ToolCalls (choice_Delta choice)))
    (bool_decide (choice_FinishReason choice ≠ None))
    (default "" (choice_FinishReason choice))
    "".

(** Lines 215-282: everything the goroutine sends on [responseChan]
    before it closes the channel. *)
Fixpoint streamEvents (model : string) (lines : list string)
    (scanErr : option string) : list ChatResponse :=
  match lines with
  | [] =>
      match scanErr with
      | Some err =>
          [mkChatResponse model ChatMessage_zero true ""
             ("scanner error: " +:+ err)]
      | None => []
      end
  | line :: rest =>
      if decide (line = "") then streamEvents model rest scanErr
      else if decide (line = "data: [DONE]") then
        [mkChatResponse model ChatMessage_zero true "" ""]
      else if negb (String.prefix "data: " line) then
        streamEvents model rest scanErr
      else
        match Unmarshal_chunk J (TrimPrefix line "data: ") with
        | Err err =>
            [mkChatResponse model ChatMessage_zero true ""
               ("failed to parse chunk: " +:+ err)]
        | Ok chunk =>
            match chunk_Choices chunk with
            | [] => streamEvents model rest scanErr
            | choice :: _ =>
                choiceResponse chunk choice ::
                (if decide (choice_FinishReason choice ≠ None) then []
                 else streamEvents model rest scanErr)
            end
        end
  end.

(** Lines 162-285. The request body carries the model and the
    messages; the tools are not sent (lines 172-176). *)
Definition ChatStream (post : string → list ChatMessage → HTTPResult)
    (req : ChatRequest) : Result (list ChatResponse) :=
  match post (req_Model req) (req_Messages req) with
  | HTTPNotMarshalled e => Err ("failed to marshal request: " +:+ e)
  | HTTPNotCreated e => Err ("failed to create request: " +:+ e)
  | HTTPFailed e => Err ("failed to start chat: " +:+ e)
  | HTTPStatus status body =>
      Err ("failed to start chat: status " +:+ pretty status +:+ ": " +:+ body)
  | HTTPStream lines scanErr => Ok (streamEvents (req_Model req) lines scanErr)
  end.
End Client.

(** ** The chat handler (internal/handlers/chat.go) *)

(** A frame written to the client: a forwarded response, written as
    [data: ] followed by its JSON, or one of the handler's own frames
    [data: {done: true, error: msg}]. *)
Inductive Frame : Type :=
  | FrameData (response : ChatResponse)
  | FrameError (msg : string).

(** The [return] statement through which the handler left. *)
Inductive Exit : Type :=
  | ExitStartFailed
  | ExitCancelled
  | ExitMarshalFailed
  | ExitClosed
  | ExitDone.

#[global] Instance Frame_eq_dec : EqDecision Frame.
Proof. solve_decision. Defined.
#[global] Instance Exit_eq_dec : EqDecision Exit.
Proof. solve_decision. Defined.

(** A forwarded response that is not marked done. *)
Definition relayed (f : Frame) : bool :=
  match f with
  | FrameData response => negb (resp_Done response)
  | FrameError _ => false
  end.

(** Line 170: a response is forwarded when it carries content or tool
    calls. *)
Definition forwarded (response : ChatResponse) : bool :=
  bool_decide (msg_Content (resp_Message response) ≠ "")
  || bool_decide (0 < length (msg_ToolCalls (resp_Message response))).

(** The name and arguments [ExecuteToolCall] is called with (line 221). *)
Definition callOf (toolCall : ToolCall) : string * string :=
  (fc_Name (tc_Function toolCall), fc_Arguments (tc_Function toolCall)).

(** What one request touches: the frames written to [w], the request
    with its growing history, the requests [ChatStream] was called with,
    the [(name, arguments)] pairs [ExecuteToolCall] was called with, and
    the number of [select] statements executed. *)
Record Session := mkSession {
  written : list Frame;
  request : ChatRequest;
  opened : list ChatRequest;
  executed : list (string * string);
  selects : nat }.

Definition Session_start (req : ChatRequest) : Session :=
  mkSession [] req [] [] 0.

Definition write (f : Frame) (s : Session) : Session :=
  mkSession (written s ++ [f]) (request s) (opened s) (executed s) (selects s).

Definition selected (s : Session) : Session :=
  mkSession (written s) (request s) (opened s) (executed s) (S (selects s)).

Definition setTools (tools : list Tool) (s : Session) : Session :=
  mkSession (written s)
    (mkChatRequest (req_Model (request s)) (req_Messages (request s))
                   (req_Stream (request s)) tools)
    (opened s) (executed s) (selects s).

Definition appendMessage (msg : ChatMessage) (s : Session) : Session :=
  mkSession (written s)
    (mkChatRequest (req_Model (request s)) (req_Messages (request s) ++ [msg])
                   (req_Stream (request s)) (req_Tools (request s)))
    (opened s) (executed s) (selects s).

Definition noteOpened (s : Session) : Session :=
  mkSession (written s) (request s) (opened s ++ [request s]) (executed s)
            (selects s).

Definition noteExecuted (toolCall : ToolCall) (s : Session) : Session :=
  mkSession (written s) (request s) (opened s)
    (executed s ++ [callOf toolCall]) (selects s).

(** The variables of the first round's loop (lines 93-95). *)
Record Locals := mkLocals {
  assistantContent : string;
  calls : Accum;
  finishReason : string }.

Definition Locals_start : Locals := mkLocals "" Accum_empty "".

(** The handler's surroundings: the chat client behind the interface,
    the scheduler's choice at the n-th [select] (true when the
    [ctx.Done()] case is taken), and the runtime's map iteration order. *)
Record Env := mkEnv {
  client_ChatStream : ChatRequest → Result (list ChatResponse);
  ctx_done : nat → bool;
  runtime : MapRange }.

Section Handler.
Context (J : JSON) (B : Backends) (E : Env).

(** Lines 127-167: what one received response does to the locals. *)
Definition collect (l : Locals) (response : ChatResponse) : Locals :=
  mkLocals
    (if decide (msg_Content (resp_Message response) ≠ "")
     then assistantContent l +:+ msg_Content (resp_Message response)
     else assistantContent l)
    (accumulate (runtime E) (calls l) (msg_ToolCalls (resp_Message response)))
    (if decide (resp_DoneReason response ≠ "")
     then resp_DoneReason response
     else finishReason l).

(** Lines 221-226. *)
Definition toolResult (toolCall : ToolCall) : string :=
  match ExecuteToolCall J B (fc_Name (tc_Function toolCall))
                            (fc_Arguments (tc_Function toolCall)) with
  | Err err =>
      "Error executing tool " +:+ fc_Name (tc_Function toolCall)
      +:+ ": " +:+ err
  | Ok result => result
  end.

(** Lines 228-232. *)
Definition toolMessage (toolCall : ToolCall) : ChatMessage :=
  mkChatMessage "tool" (toolResult toolCall) (tc_ID toolCall) [].

(** Lines 220-233. *)
Definition executeAll (s : Session) (toolCalls : list ToolCall) : Session :=
  foldl (λ s toolCall,
           appendMessage (toolMessage toolCall) (noteExecuted toolCall s))
        s toolCalls.

(** Lines 244-270: the loop that streams the resumed response. *)
Fixpoint finalLoop (s : Session) (stream : list ChatResponse)
    : Session * Exit :=
  if ctx_done E (selects s) then
    (write (FrameError "context cancelled") (selected s), ExitCancelled)
  else
    let s := selected s in
    match stream with
    | [] => (s, ExitClosed)
    | response :: rest =>
        if is_Err (Marshal J response) then
          (write (FrameError "failed to marshal response") s,
           ExitMarshalFailed)
        else
          let s := write (FrameData response) s in
          if resp_Done response then (s, ExitDone)
          else finalLoop s rest
    end.

(** Lines 209-271. *)
Definition executeAndContinue (s : Session) (assistantContent : string)
    (toolCalls : list ToolCall) : Session * Exit :=
  let s := appendMessage
             (mkChatMessage "assistant" assistantContent "" toolCalls) s in
  let s := executeAll s toolCalls in
  let s := noteOpened s in
  match client_ChatStream E (request s) with
  | Err err =>
      (write (FrameError ("Failed to get final response: " +:+ err)) s,
       ExitStartFailed)
  | Ok stream => finalLoop s stream
  end.

(** Lines 98-205: the loop of the first round. *)
Fixpoint streamLoop (s : Session) (l : Locals) (stream : list ChatResponse)
    : Session * Exit :=
  if ctx_done E (selects s) then
    (write (FrameError "context cancelled") (selected s), ExitCancelled)
  else
    let s := selected s in
    match stream with
    | [] =>
        if decide (0 < size (toolCallsMap (calls l))) then
          let toolCalls := eligibleCalls (runtime E) (calls l) in
          if decide (0 < length toolCalls) then
            executeAndContinue s (assistantContent l) toolCalls
          else (s, ExitClosed)
        else (s, ExitClosed)
    | response :: rest =>
        let l := collect l response in
        if forwarded response && is_Err (Marshal J response) then
          (write (FrameError "failed to marshal response") s,
           ExitMarshalFailed)
        else
          let s := if forwarded response
                   then write (FrameData response) s else s in
          if resp_Done response then
            if decide (0 < size (toolCallsMap (calls l))
                       ∧ finishReason l = "tool_calls") then
              let toolCalls := eligibleCalls (runtime E) (calls l) in
              if decide (0 < length toolCalls) then
                executeAndContinue s (assistantContent l) toolCalls
              else (s, ExitDone)
            else (s, ExitDone)
          else streamLoop s l rest
    end.

(** Lines 78-206, for a handler built with a tool executor, as
    [main] builds it. *)
Definition streamWithFunctionCalling (req : ChatRequest) : Session * Exit :=
  let s := Session_start req in
  let s := setTools (GetAvailableTools B) s in
  let s := noteOpened s in
  match client_ChatStream E (request s) with
  | Err _ => (write (FrameError "Failed to start chat") s, ExitStartFailed)
  | Ok stream => streamLoop s Locals_start stream
  end.
End Handler.

(** ** Vocabulary of the statements *)

(** Every record of the map is stored under its own call id. *)
Definition keyed (m : gmap string ToolCall) : Prop :=
  ∀ k r, m !! k = Some r → tc_ID r = k.

(** [r'] is [r] after further deltas: same call id, a name that is kept
    or replaced by a non-empty one, arguments extended at the end. *)
Definition grows (r r' : ToolCall) : Prop :=
  tc_ID r' = tc_ID r
  ∧ (fc_Name (tc_Function r') = fc_Name (tc_Function r)
     ∨ fc_Name (tc_Function r') ≠ "")
  ∧ ∃ s, fc_Arguments (tc_Function r')
         = fc_Arguments (tc_Function r) +:+ s.

(** The responses the first round takes from a stream: those up to and
    including the first one marked done, and whether there is one. *)
Fixpoint received (stream : list ChatResponse) : list ChatResponse * bool :=
  match stream with
  | [] => ([], false)
  | response :: rest =>
      if resp_Done response then ([response], true)
      else (response :: (received rest).1, (received rest).2)
  end.

(** The [select] statements a round executes to take [seen]: one per
    response, and one more to find the channel closed. *)
Definition selectsOf (seen : list ChatResponse) (completed : bool) : nat :=
  if completed then length seen else S (length seen).

(** No [select] of the round, numbered from [from], takes the
    cancellation case, and no forwarded response fails to marshal. *)
Definition uninterrupted (J : JSON) (E : Env) (from : nat)
    (seen : list ChatResponse) (completed : bool) : bool :=
  forallb (λ n, negb (ctx_done E n)) (seq from (selectsOf seen completed))
  && forallb (λ response, negb (forwarded response && is_Err (Marshal J response)))
             seen.

(** The frames of the responses of [seen] that the first round forwards. *)
Definition framesOf (seen : list ChatResponse) : list Frame :=
  FrameData <$> filter (λ response, forwarded response = true) seen.

(** The exits through which the handler writes a frame of its own. *)
Definition failure (exit : Exit) : bool :=
  match exit with
  | ExitStartFailed | ExitCancelled | ExitMarshalFailed => true
  | ExitClosed | ExitDone => false
  end.

(** The request as the handler first sends it: with the tool list. *)
Definition firstRequest (B : Backends) (req : ChatRequest) : ChatRequest :=
  mkChatRequest (req_Model req) (req_Messages req) (req_Stream req)
                (GetAvailableTools B).

(** The session [s] after [frames] more frames and [n] more selects. *)
Definition advance (s : Session) (frames : list Frame) (n : nat) : Session :=
  mkSession (written s ++ frames) (request s) (opened s) (executed s)
            (selects s + n).

(** The request [req] with [msgs] appended to its history. *)
Definition extend (req : ChatRequest) (msgs : list ChatMessage) : ChatRequest :=
  mkChatRequest (req_Model req) (req_Messages req ++ msgs) (req_Stream req)
                (req_Tools req).

(** The session with which [executeAndContinue] opens the resumed
    stream: the assistant message and one tool message per call
    appended, every call logged, the stream opened on that history. *)
Definition resumed (J : JSON) (B : Backends) (s : Session)
    (content : string) (toolCalls : list ToolCall) : Session :=
  let req := extend (request s)
               (mkChatMessage "assistant" content "" toolCalls
                :: (toolMessage J B <$> toolCalls)) in
  mkSession (written s) req (opened s ++ [req])
            (executed s ++ (callOf <$> toolCalls)) (selects s).

(** The frames one round may write before it ends through [exit]:
    forwarded responses that are not marked done, then at most one last
    frame, which is the handler's error frame when the exit is a failure
    and otherwise, if present, a forwarded response marked done. *)
Definition roundFrames (frames : list Frame) (exit : Exit) : Prop :=
  ∃ pre tail,
    frames = pre ++ tail
    ∧ Forall (λ f, relayed f = true) pre
    ∧ if failure exit then ∃ msg, tail = [FrameError msg]
      else tail = [] ∨ ∃ r, tail = [FrameData r] ∧ resp_Done r = true.




(** A line after which the client's goroutine keeps scanning without
    having sent an event marked done. *)
Definition quietLine (J : JSON) (line : string) : Prop :=
  line ≠ "data: [DONE]"
  ∧ (line = "" ∨ String.prefix "data: " line = false
     ∨ ∃ chunk, Unmarshal_chunk J (TrimPrefix line "data: ") = Ok chunk
                ∧ (chunk_Choices chunk = []
                   ∨ ∃ choice rest, chunk_Choices chunk = choice :: rest
                                    ∧ choice_FinishReason choice = None)).

(** ** Sample surroundings for the worked examples *)

Definition quote : string := String (Ascii.ascii_of_nat 34) "".

Definition quoted (s : string) : string := quote +:+ s +:+ quote.

(** The argument text of a JSON object whose only field, query, is
    the string x. *)
Definition args_query_x : string :=
  "{" +:+ quoted "query" +:+ ":" +:+ quoted "x" +:+ "}".

(** Two chunk texts of the llama.cpp stream: an object whose single
    choice has a delta with the content hi, and one whose single choice
    has an empty delta and the finish reason stop. *)
Definition chunk_hi : string :=
  "{" +:+ quoted "choices" +:+ ":[{" +:+ quoted "delta" +:+ ":{"
  +:+ quoted "content" +:+ ":" +:+ quoted "hi" +:+ "}}]}".

Definition chunk_stop : string :=
  "{" +:+ quoted "choices" +:+ ":[{" +:+ quoted "delta" +:+ ":{},"
  +:+ quoted "finish_reason" +:+ ":" +:+ quoted "stop" +:+ "}]}".

(** A decoder that knows the texts of the examples (the empty object,
    the query object and the two chunks above) and refuses every other
    text the way [encoding/json] refuses [invalid json]. Marshalling
    always succeeds. *)
Definition sample_JSON : JSON :=
  mkJSON
    (λ text, if decide (text = "{}") then Ok ∅
             else if decide (text = args_query_x)
                  then Ok {[ "query" := JString "x" ]}
                  else Err "invalid character")
    (λ text, if decide (text = "{}") then Ok (mkPortfolioArgs "" "")
             else if decide (text = args_query_x)
                  then Ok (mkPortfolioArgs "" "")
                  else Err "invalid character")
    (λ text, if decide (text = chunk_hi) then
               Ok (mkOpenAIChatChunk "" "" 0 ""
                     [mkOpenAIChoice 0 (mkChatMessage "" "hi" "" []) None])
             else if decide (text = chunk_stop) then
               Ok (mkOpenAIChatChunk "" "" 0 ""
                     [mkOpenAIChoice 0 ChatMessage_zero (Some "stop")])
             else Err "invalid character")
    (λ _, Ok "{}").

(** A back end that answers every request with the two chunks and the
    end marker. *)
Definition post_hi_stop : string → list ChatMessage → HTTPResult :=
  λ _ _, HTTPStream ["data: " +:+ chunk_hi; ""; "data: " +:+ chunk_stop;
                     ""; "data: [DONE]"] None.

(** Backends with every tool enabled: the search service is down, the
    news client only has a feed for the topic world, and it is empty;
    the Sentinel API is down. *)
Definition sample_Backends : Backends :=
  mkBackends
    (λ _ _, Err "connection refused")
    (λ topic _, if decide (topic = "world") then Ok []
                else Err "no feeds configured for topic")
    ["world"]
    (mkToolSettings true true true)
    (Err "failed to get portfolio summary: connection refused")
    (Err "failed to get opportunities: connection refused")
    (Err "failed to get risk metrics: connection refused")
    (Err "failed to get market context: connection refused").

(** Responses in the shapes the client produces: a content delta, a
    chunk of tool-call deltas, and a completion with its reason, alone
    or in the chunk that carries the tool-call deltas. *)
Definition contentDelta (text : string) : ChatResponse :=
  mkChatResponse "m" (mkChatMessage "assistant" text "" []) false "" "".

Definition toolCallDeltas (deltas : list ToolCall) : ChatResponse :=
  mkChatResponse "m" (mkChatMessage "assistant" "" "" deltas) false "" "".

Definition completion (reason : string) : ChatResponse :=
  mkChatResponse "m" (mkChatMessage "" "" "" []) true reason "".

Definition toolCallsCompletion (deltas : list ToolCall) : ChatResponse :=
  mkChatResponse "m" (mkChatMessage "assistant" "" "" deltas) true
                 "tool_calls" "".

Definition sample_request : ChatRequest :=
  mkChatRequest "m" [mkChatMessage "user" "hi" "" []] true [].

(** A chat client that answers a history of one message with [first]
    and any longer history with [second]; [cancel] tells which selects
    find the context done. *)
Definition scripted (first second : list ChatResponse) (cancel : nat → bool)
    (R : MapRange) : Env :=
  mkEnv (λ req, if decide (length (req_Messages req) = 1)
                then Ok first else Ok second)
        cancel R.

Definition never : nat → bool := λ _, false.

(** ** The rest of the handlers and of the client *)

(** The text of one of the handler's own frames as lines 87, 101, 173,
    238, 247 and 258 write it: the message stands between two quote
    characters as it is, without escaping. *)
Definition errorFrame (msg : string) : string :=
  "data: {" +:+ quoted "done" +:+ ": true, " +:+ quoted "error" +:+ ": "
  +:+ quoted msg +:+ "}" +:+ nl +:+ nl.

(** The reply of the handlers that answer outside a stream: [http.Error]
    with a status and a message, or a JSON object sent with status 200. *)
Inductive Reply : Type :=
  | HttpError (status : nat) (message : string)
  | HttpJSON (fields : list (string * JValue)).

(** chat.go lines 40-75. [decoded] is what decoding the request body
    gave, [canFlush] whether the response writer is an [http.Flusher];
    the deadline set at line 58 is part of the schedule of [E]. A
    request is either rejected with a status and a message or streamed. *)
Inductive StreamReply : Type :=
  | Rejected (status : nat) (message : string)
  | Streamed (result : Session * Exit).

Definition Stream (J : JSON) (B : Backends) (E : Env)
    (decoded : Result ChatRequest) (canFlush : bool) : StreamReply :=
  match decoded with
  | Err err => Rejected 400 ("Invalid request body: " +:+ err)
  | Ok req =>
      if decide (req_Model req = "") then Rejected 400 "model is required"
      else if decide (length (req_Messages req) = 0) then
        Rejected 400 "messages array is required"
      else if negb canFlush then Rejected 500 "Streaming not supported"
      else Streamed (streamWithFunctionCalling J B E req)
  end.

(** The llama.cpp client, lines 105-122: the base URL that [New] gives
    the client. It never returns an error. *)
Definition New (host : string) : Result string :=
  let host := if decide (host = "") then "http://localhost:8080" else host in
  let host :=
    if negb (String.prefix "http://" host) && negb (String.prefix "https://" host)
    then "http://" +:+ host else host in
  Ok host.

(** The llama.cpp client, lines 287-291. [None] is the nil error. *)
Definition UnloadModel (modelName : string) : option string :=
  Some "unload model is not supported by llama.cpp server".

(** [UnloadHandler.Unload], lines 30-53: [unload] is the client behind
    the interface, [encode] the JSON encoder writing the reply. *)
Definition Unload (unload : string → option string)
    (encode : list (string * JValue) → option string) (modelName : string)
    : Reply :=
  if decide (modelName = "") then HttpError 400 "model name is required"
  else
    match unload modelName with
    | Some err => HttpError 500 ("Failed to unload model: " +:+ err)
    | None =>
        let fields :=
          [("success", JBool true); ("model", JString modelName);
           ("message", JString ("Model " +:+ modelName
                                +:+ " unloaded from memory"))] in
        match encode fields with
        | Some err => HttpError 500 ("Failed to encode response: " +:+ err)
        | None => HttpJSON fields
        end
    end.

(** ** The tool settings store (package handlers, [ToolSettings]) *)

(** What [os.ReadFile] gives. *)
Inductive ReadResult : Type :=
  | NotExist
  | ReadFailed (err : string)
  | Contents (data : string).

(** The operating system and [encoding/json] as the store uses them,
    over some type of disk states. *)
Record Disk := mkDisk {
  FS : Type;
  ReadFile : FS → string → ReadResult;
  MkdirAll : FS → string → Result FS;
  WriteFile : FS → string → string → Result FS;
  MarshalIndent : ToolSettings → Result string;
  UnmarshalSettings : string → Result ToolSettings }.

(** The three flags in memory and the path of the file. *)
Record SettingsStore := mkSettingsStore {
  flags : ToolSettings;
  configPath : string }.

(** Lines 69-74: the index of the last slash among the first [i] bytes. *)
Fixpoint lastSlash (path : string) (i : nat) : option nat :=
  match i with
  | 0 => None
  | S j =>
      if decide (String.get j path = Some (Ascii.ascii_of_nat 47)) then Some j
      else lastSlash path j
  end.

(** Lines 68-74: the directory part of the path, empty when there is no
    slash. *)
Definition dirOf (path : string) : string :=
  match lastSlash path (String.length path) with
  | Some i => String.substring 0 i path
  | None => ""
  end.

Section Settings.
Context (D : Disk).

(** Lines 34-59. The second component is the error, [None] for nil. *)
Definition Load (fs : FS D) (ts : SettingsStore) : SettingsStore * option string :=
  if decide (configPath ts = "") then (ts, None)
  else
    match ReadFile D fs (configPath ts) with
    | NotExist => (ts, None)
    | ReadFailed err => (ts, Some ("failed to read tool settings: " +:+ err))
    | Contents data =>
        match UnmarshalSettings D data with
        | Err err => (ts, Some ("failed to parse tool settings: " +:+ err))
        | Ok settings =>
            (mkSettingsStore
               (mkToolSettings (EnableWebSearch settings) (EnableFeeds settings)
                               (EnableSentinel settings))
               (configPath ts),
             None)
        end
    end.

(** Lines 20-31: the error of [Load] is dropped. *)
Definition NewToolSettings (fs : FS D) (path : string) : SettingsStore :=
  (Load fs (mkSettingsStore (mkToolSettings false false false) path)).1.

(** Lines 62-100. *)
Definition Save (fs : FS D) (ts : SettingsStore) : FS D * option string :=
  if decide (configPath ts = "") then
    (fs, Some "no config path set for saving settings")
  else
    let dir := dirOf (configPath ts) in
    match (if decide (dir ≠ "") then MkdirAll D fs dir else Ok fs) with
    | Err err => (fs, Some ("failed to create config directory: " +:+ err))
    | Ok fs =>
        let settings :=
          mkToolSettings (EnableWebSearch (flags ts)) (EnableFeeds (flags ts))
                         (EnableSentinel (flags ts)) in
        match MarshalIndent D settings with
        | Err err => (fs, Some ("failed to marshal settings: " +:+ err))
        | Ok data =>
            match WriteFile D fs (configPath ts) data with
            | Err err => (fs, Some ("failed to write settings file: " +:+ err))
            | Ok fs => (fs, None)
            end
        end
    end.

(** Lines 103-111. *)
Definition Get (ts : SettingsStore) : ToolSettings :=
  mkToolSettings (EnableWebSearch (flags ts)) (EnableFeeds (flags ts))
                 (EnableSentinel (flags ts)).

(** Lines 114-122. *)
Definition Set_ (fs : FS D) (ts : SettingsStore) (webSearch feeds sentinel : bool)
    : SettingsStore * (FS D * option string) :=
  let ts := mkSettingsStore (mkToolSettings webSearch feeds sentinel)
                            (configPath ts) in
  (ts, Save fs ts).
End Settings.

(** A disk for the examples: files in a map, every operation succeeds,
    and the settings are written as three letters. *)
Definition sample_Disk : Disk :=
  mkDisk (gmap string string)
    (λ fs path, match fs !! path with
                | Some data => Contents data
                | None => NotExist
                end)
    (λ fs _, Ok fs)
    (λ fs path data, Ok (<[path := data]> fs))
    (λ settings,
       Ok ((if EnableWebSearch settings then "w" else "-")
           +:+ (if EnableFeeds settings then "f" else "-")
           +:+ (if EnableSentinel settings then "s" else "-")))
    (λ data,
       match data with
       | String w (String f (String s "")) =>
           Ok (mkToolSettings (bool_decide (w = Ascii.ascii_of_nat 119))
                              (bool_decide (f = Ascii.ascii_of_nat 102))
                              (bool_decide (s = Ascii.ascii_of_nat 115)))
       | _ => Err "unexpected end of JSON input"
       end).

(** The resumed round is not interrupted: no select takes the
    cancellation and every response marshals. *)
Definition uninterruptedFinal (J : JSON) (E : Env) (from : nat)
    (seen : list ChatResponse) (completed : bool) : bool :=
  forallb (λ n, negb (ctx_done E n)) (seq from (selectsOf seen completed))
  && forallb (λ response, negb (is_Err (Marshal J response))) seen.

(** The content of the responses, concatenated in arrival order. *)
Definition contentOf (seen : list ChatResponse) : string :=
  foldr (λ response rest, msg_Content (resp_Message response) +:+ rest) "" seen.

(** A line that the client's goroutine skips: an empty line or a line
    that does not start with the data prefix. *)
Definition skipped (line : string) : Prop :=
  line = "" ∨ String.prefix "data: " line = false.

#[global] Instance skipped_dec (line : string) : Decision (skipped line).
Proof. unfold skipped. apply _. Defined.

(** A line after which the client's goroutine returns: the end marker,
    a data line that does not parse, or a chunk whose first choice has a
    finish reason. *)
Definition lastLine (J : JSON) (line : string) : Prop :=
  line = "data: [DONE]"
  ∨ (String.prefix "data: " line = true
     ∧ (is_Err (Unmarshal_chunk J (TrimPrefix line "data: ")) = true
        ∨ ∃ chunk choice rest,
            Unmarshal_chunk J (TrimPrefix line "data: ") = Ok chunk
            ∧ chunk_Choices chunk = choice :: rest
            ∧ choice_FinishReason choice ≠ None)).

(** A string without a slash. *)
Definition slashFree (s : string) : Prop :=
  ∀ i, String.get i s ≠ Some (Ascii.ascii_of_nat 47).

(** The backends with another snapshot of the tool settings. *)
Definition withSettings (settings : ToolSettings) (B : Backends) : Backends :=
  mkBackends (Search B) (FetchNews B) (GetAvailableTopics B) settings
             (executePortfolioOverview B) (executeOpportunitiesAnalysis B)
             (executeRiskAnalysis B) (executeMarketContextAnalysis B).

(** The section of the full analysis for one analysis, taken alone:
    title, text and a line break, or nothing when the analysis failed. *)
Definition sectionText (title : string) (analysis : Result string) : string :=
  match analysis with
  | Ok text => title +:+ nl +:+ text +:+ nl
  | Err _ => ""
  end.

(** The names [ExecuteToolCall] dispatches on. *)
Definition registered (name : string) : Prop :=
  name = "web_search" ∨ name = "get_news" ∨ name = "analyze_portfolio".

(** * Properties *)

(** ** The accumulator *)

Lemma string_app_nil_r (s : string) : s +:+ "" = s.
Proof.
  induction s as [|c s IH]; [done |].
  change (String c s +:+ "") with (String c (s +:+ "")). by f_equal.
Qed.

Lemma string_app_assoc (s t u : string) : (s +:+ t) +:+ u = s +:+ t +:+ u.
Proof.
  induction s as [|c s IH]; [done |].
  change (String c (s +:+ t) +:+ u = String c (s +:+ t +:+ u)).
  change (String c ((s +:+ t) +:+ u) = String c (s +:+ t +:+ u)). by f_equal.
Qed.

Lemma grows_refl r : grows r r.
Proof.
  split; [done |]. split; [by left |].
  exists "". by rewrite string_app_nil_r.
Qed.

Lemma grows_trans r1 r2 r3 : grows r1 r2 → grows r2 r3 → grows r1 r3.
Proof.
  intros (Hid1 & Hn1 & s1 & Ha1) (Hid2 & Hn2 & s2 & Ha2).
  split; [congruence |]. split.
  - destruct Hn2 as [Heq | Hne]; [| by right].
    destruct Hn1 as [Heq1 | Hne1]; [left; congruence | right; congruence].
  - exists (s1 +:+ s2). by rewrite Ha2, Ha1, string_app_assoc.
Qed.

Lemma grows_eligible r r' : grows r r' → eligible r → eligible r'.
Proof.
  intros (Hid & Hn & _) [Hi Hname]. split; [congruence |].
  destruct Hn as [Heq | Hne]; congruence.
Qed.

Lemma grows_add_Arguments frag r : grows r (add_Arguments frag r).
Proof. split; [done |]. split; [by left | by exists frag]. Qed.

Lemma elem_of_range_at (R : MapRange) n m k r :
  (k, r) ∈ range_at R n m ↔ m !! k = Some r.
Proof. rewrite (range_at_perm R n m). apply elem_of_map_to_list. Qed.

(** The loop of lines 147-154 either finds no record with id and name
    and leaves the map alone, or rewrites exactly one visited record. *)
Lemma appendToFirst_cases frag visit m :
  (Forall (λ kr, ¬ eligible kr.2) visit ∧ appendToFirst frag visit m = m)
  ∨ (∃ k r, (k, r) ∈ visit ∧ eligible r
            ∧ appendToFirst frag visit m
              = <[tc_ID r := add_Arguments frag r]> m).
Proof.
  induction visit as [|[k r] visit IH]; simpl.
  - left. split; [constructor | done].
  - destruct (decide (eligible r)) as [He | He].
    + right. exists k, r. split; [left | done].
    + destruct IH as [[Hall Heq] | (k' & r' & Hin & He' & Heq)].
      * left. split; [by constructor | done].
      * right. exists k', r'. split; [by right | done].
Qed.

Lemma mergeToolCall_noid_cases R a d :
  tc_ID d = "" → fc_Name (tc_Function d) = "" →
  fc_Arguments (tc_Function d) ≠ "" →
  let m := toolCallsMap a in
  let m' := toolCallsMap (mergeToolCall R a d) in
  ((∀ k r, m !! k = Some r → ¬ eligible r) ∧ m' = m)
  ∨ (∃ k r, m !! k = Some r ∧ eligible r
            ∧ m' = <[tc_ID r := add_Arguments (fc_Arguments (tc_Function d)) r]> m).
Proof.
  intros Hid Hname Hargs m m'. subst m'. unfold mergeToolCall.
  rewrite decide_False by (intros H; by apply H).
  rewrite decide_True by done. simpl.
  destruct (appendToFirst_cases (fc_Arguments (tc_Function d))
              (range_at R (ranges a) m) m)
    as [[Hall Heq] | (k & r & Hin & He & Heq)].
  - left. split; [| done]. intros k r Hk.
    apply (elem_of_range_at R (ranges a)) in Hk.
    rewrite Forall_forall in Hall. apply (Hall _ Hk).
  - right. exists k, r. by rewrite <- (elem_of_range_at R (ranges a)).
Qed.

(** The record stored for a delta that carries an id. *)
Lemma mergeToolCall_id_lookup R a d :
  tc_ID d ≠ "" →
  ∃ r', toolCallsMap (mergeToolCall R a d)
          = <[tc_ID d := r']> (toolCallsMap a)
        ∧ tc_ID r' = tc_ID d
        ∧ (∀ r, toolCallsMap a !! tc_ID d = Some r → tc_ID r = tc_ID d →
                grows r r').
Proof.
  intros Hid. unfold mergeToolCall. rewrite decide_True by done.
  eexists. split; [reflexivity |]. split.
  - repeat case_decide; reflexivity.
  - intros r Hr Hk. rewrite Hr. simpl.
    split; [repeat case_decide; by simpl |]. split.
    + repeat case_decide; simpl; auto.
    + repeat case_decide; simpl; eauto using string_app_nil_r.
      all: exists ""; by rewrite string_app_nil_r.
Qed.

Lemma mergeToolCall_keyed R a d :
  keyed (toolCallsMap a) → keyed (toolCallsMap (mergeToolCall R a d)).
Proof.
  intros Hk. destruct (decide (tc_ID d ≠ "")) as [Hid | Hid].
  - destruct (mergeToolCall_id_lookup R a d Hid) as (r' & -> & Hr' & _).
    intros k r. rewrite lookup_insert. case_decide; [naive_solver | apply Hk].
  - apply dec_stable in Hid.
    destruct (decide (fc_Arguments (tc_Function d) ≠ ""
                      ∧ fc_Name (tc_Function d) = "")) as [[Ha Hn] | Hno].
    + destruct (mergeToolCall_noid_cases R a d Hid Hn Ha)
        as [[_ ->] | (k0 & r0 & Hk0 & _ & ->)]; [done |].
      intros k r. rewrite lookup_insert. case_decide; [| apply Hk].
      intros [= <-]. by simplify_eq/=.
    + unfold mergeToolCall. rewrite decide_False by (intros H; by apply H).
      by rewrite decide_False.
Qed.

Lemma mergeToolCall_grows R a d k r :
  keyed (toolCallsMap a) → toolCallsMap a !! k = Some r →
  ∃ r', toolCallsMap (mergeToolCall R a d) !! k = Some r' ∧ grows r r'.
Proof.
  intros Hkeyed Hr. destruct (decide (tc_ID d ≠ "")) as [Hid | Hid].
  - destruct (mergeToolCall_id_lookup R a d Hid) as (r' & -> & Hr' & Hg).
    destruct (decide (tc_ID d = k)) as [<- | Hne].
    + exists r'. rewrite lookup_insert_eq. split; [done |].
      apply Hg; [done | by apply Hkeyed].
    + exists r. rewrite lookup_insert_ne by done. split; [done | apply grows_refl].
  - apply dec_stable in Hid.
    destruct (decide (fc_Arguments (tc_Function d) ≠ ""
                      ∧ fc_Name (tc_Function d) = "")) as [[Ha Hn] | Hno].
    + destruct (mergeToolCall_noid_cases R a d Hid Hn Ha)
        as [[_ ->] | (k0 & r0 & Hk0 & _ & ->)].
      { exists r. split; [done | apply grows_refl]. }
      pose proof (Hkeyed _ _ Hk0) as Hid0. rewrite Hid0.
      destruct (decide (k0 = k)) as [-> | Hne].
      * rewrite lookup_insert_eq. eexists. split; [done |].
        assert (r0 = r) as -> by congruence. apply grows_add_Arguments.
      * rewrite lookup_insert_ne by done. exists r. split; [done | apply grows_refl].
    + unfold mergeToolCall. rewrite decide_False by (intros H; by apply H).
      rewrite decide_False by done. exists r. split; [done | apply grows_refl].
Qed.

Lemma accumulate_keyed R a deltas :
  keyed (toolCallsMap a) → keyed (toolCallsMap (accumulate R a deltas)).
Proof.
  revert a. induction deltas as [|d deltas IH]; intros a Hk; simpl; [done |].
  apply IH. by apply mergeToolCall_keyed.
Qed.

Lemma keyed_empty : keyed (toolCallsMap Accum_empty).
Proof. intros k r. simpl. by rewrite lookup_empty. Qed.

Lemma accumulate_app R a l1 l2 :
  accumulate R a (l1 ++ l2) = accumulate R (accumulate R a l1) l2.
Proof. unfold accumulate. apply foldl_app. Qed.

Lemma accumulate_grows R a deltas k r :
  keyed (toolCallsMap a) → toolCallsMap a !! k = Some r →
  ∃ r', toolCallsMap (accumulate R a deltas) !! k = Some r' ∧ grows r r'.
Proof.
  revert a r. induction deltas as [|d deltas IH]; intros a r Hk Hr; simpl.
  - exists r. split; [done | apply grows_refl].
  - destruct (mergeToolCall_grows R a d k r Hk Hr) as (r1 & Hr1 & Hg1).
    destruct (IH _ r1 (mergeToolCall_keyed R a d Hk) Hr1) as (r2 & Hr2 & Hg2).
    exists r2. split; [done | by eapply grows_trans].
Qed.

Lemma accumulate_dom R a deltas :
  Forall (λ d, tc_ID d ≠ "") deltas →
  dom (toolCallsMap (accumulate R a deltas))
  = dom (toolCallsMap a) ∪ list_to_set (tc_ID <$> deltas).
Proof.
  revert a. induction deltas as [|d deltas IH]; intros a Hall; simpl.
  - set_solver.
  - inversion Hall as [|? ? Hd Hrest]; subst.
    rewrite IH by done.
    destruct (mergeToolCall_id_lookup R a d Hd) as (r' & -> & _).
    rewrite dom_insert_L. set_solver.
Qed.

(** C6. When every delta of a finite sequence carries a non-empty call
    id, the accumulated map holds as many records as there are distinct
    call ids in the sequence. *)
Theorem accumulate_count_distinct_ids (R : MapRange) (deltas : list ToolCall) :
  Forall (λ d, tc_ID d ≠ "") deltas →
  size (toolCallsMap (accumulate R Accum_empty deltas))
  = length (remove_dups (tc_ID <$> deltas)).
Proof.
  intros Hall.
  rewrite <- size_dom, (accumulate_dom R Accum_empty deltas Hall).
  simpl. rewrite dom_empty_L, (left_id_L ∅ (∪)).
  rewrite <- (size_list_to_set (C:=gset string) (remove_dups (tc_ID <$> deltas)))
    by apply NoDup_remove_dups.
  f_equal. apply set_eq. intros x.
  rewrite !elem_of_list_to_set. by rewrite elem_of_remove_dups.
Qed.

Lemma accumulate_count_distinct_ids_witness :
  size (toolCallsMap (accumulate range_backward Accum_empty
          [delta "a" "f" "{"; delta "b" "g" ""; delta "a" "" "}"]))
  = 2.
Proof.
  rewrite (accumulate_count_distinct_ids range_backward
             [delta "a" "f" "{"; delta "b" "g" ""; delta "a" "" "}"]).
  - vm_compute. reflexivity.
  - repeat constructor; vm_compute; discriminate.
Defined.

(** C10. Whatever deltas follow, a record stored in the map stays in
    the map under the same key with the same call id, its name is either
    kept or replaced by a non-empty name, and its arguments only get
    longer at the end; so a record that has both id and name keeps
    them and stays eligible for the rest of the round. *)
Theorem accumulate_preserves_eligibility (R : MapRange)
    (seen further : list ToolCall) (k : string) (r : ToolCall) :
  toolCallsMap (accumulate R Accum_empty seen) !! k = Some r →
  ∃ r', toolCallsMap (accumulate R Accum_empty (seen ++ further)) !! k = Some r'
        ∧ tc_ID r' = tc_ID r
        ∧ (tc_ID r ≠ "" → tc_ID r' ≠ "")
        ∧ (fc_Name (tc_Function r') = fc_Name (tc_Function r)
           ∨ fc_Name (tc_Function r') ≠ "")
        ∧ (fc_Name (tc_Function r) ≠ "" → fc_Name (tc_Function r') ≠ "")
        ∧ (∃ s, fc_Arguments (tc_Function r')
                = fc_Arguments (tc_Function r) +:+ s)
        ∧ (eligible r → eligible r').
Proof.
  intros Hr. rewrite accumulate_app.
  destruct (accumulate_grows R (accumulate R Accum_empty seen) further k r)
    as (r' & Hr' & Hg); [apply accumulate_keyed, keyed_empty | done |].
  exists r'. split; [done |].
  pose proof (grows_eligible _ _ Hg) as He.
  destruct Hg as (Hid & Hn & Ha).
  repeat split; try done.
  - congruence.
  - destruct Hn; congruence.
  - by destruct He.
  - by destruct He.
Qed.

Lemma accumulate_preserves_eligibility_witness :
  ∃ r', toolCallsMap (accumulate range_forward Accum_empty
                        ([delta "a" "f" "x"] ++ [delta "" "" "y"; delta "a" "" "z"]))
          !! "a" = Some r'
        ∧ tc_ID r' = "a"
        ∧ fc_Name (tc_Function r') ≠ ""
        ∧ (∃ s, fc_Arguments (tc_Function r') = "x" +:+ s)
        ∧ eligible r'.
Proof.
  destruct (accumulate_preserves_eligibility range_forward
              [delta "a" "f" "x"] [delta "" "" "y"; delta "a" "" "z"]
              "a" (mkToolCall "a" "" (mkFunctionCall "f" "x")))
    as (r' & Hr' & Hid & _ & _ & Hname & Hargs & Hel).
  - vm_compute. reflexivity.
  - exists r'. split; [exact Hr' |]. split; [exact Hid |].
    split; [apply Hname; discriminate |]. split; [exact Hargs |].
    apply Hel. split; discriminate.
Defined.

Lemma mergeToolCall_noid_singleton R n k r frag :
  eligible r → tc_ID r = k → frag ≠ "" →
  mergeToolCall R (mkAccum {[k := r]} n) (delta "" "" frag)
  = mkAccum {[k := add_Arguments frag r]} (S n).
Proof.
  intros He Hk Hfrag. unfold mergeToolCall. simpl.
  rewrite decide_True by done. f_equal.
  pose proof (range_at_perm R n {[k := r]}) as Hperm.
  rewrite map_to_list_singleton in Hperm.
  apply Permutation_singleton_r in Hperm. rewrite Hperm. simpl.
  rewrite decide_True by done. rewrite Hk. apply insert_singleton_eq.
Qed.

Lemma mergeToolCall_named_noid R a d :
  tc_ID d = "" → fc_Name (tc_Function d) ≠ "" → mergeToolCall R a d = a.
Proof.
  intros Hid Hname. unfold mergeToolCall.
  rewrite decide_False by (intros H; by apply H).
  by rewrite decide_False by (intros [_ H]; by apply Hname).
Qed.

(** C5, as stated, fails: a fragment without id that carries a function
    name is not appended to the record that has id and name. *)
Lemma accumulate_named_fragment_dropped :
  toolCallsMap (accumulate range_forward Accum_empty
                  [delta "a" "f" ""; delta "" "g" "x"]) !! "a"
  = Some (mkToolCall "a" "" (mkFunctionCall "f" ""))
  ∧ toolCallsMap (accumulate range_forward Accum_empty
                    [delta "a" "f" ""; delta "" "g" "x"]) !! "a"
    ≠ Some (mkToolCall "a" "" (mkFunctionCall "f" "x")).
Proof. split; vm_compute; [reflexivity | congruence]. Qed.

(** C5 (amended). The sequence id a, name f followed by the id-less,
    name-less fragments x, y, z accumulates the arguments xyz under a,
    whatever order the map is visited in. In general a delta with empty
    id, empty name and a non-empty fragment leaves the map alone when no
    record has both id and name, and otherwise appends the fragment to
    exactly one such record; a delta with empty id and a non-empty name
    changes nothing. *)
Theorem accumulate_idless_fragment (R : MapRange) :
  toolCallsMap (accumulate R Accum_empty
                  [delta "a" "f" ""; delta "" "" "x"; delta "" "" "y";
                   delta "" "" "z"]) !! "a"
  = Some (mkToolCall "a" "" (mkFunctionCall "f" "xyz"))
  ∧ (∀ seen d,
       tc_ID d = "" → fc_Name (tc_Function d) = "" →
       fc_Arguments (tc_Function d) ≠ "" →
       let m := toolCallsMap (accumulate R Accum_empty seen) in
       let m' := toolCallsMap (accumulate R Accum_empty (seen ++ [d])) in
       ((∀ k r, m !! k = Some r → ¬ eligible r) ∧ m' = m)
       ∨ (∃ k r, m !! k = Some r ∧ eligible r
                 ∧ m' = <[k := add_Arguments (fc_Arguments (tc_Function d)) r]> m))
  ∧ (∀ seen d,
       tc_ID d = "" → fc_Name (tc_Function d) ≠ "" →
       accumulate R Accum_empty (seen ++ [d]) = accumulate R Accum_empty seen).
Proof.
  split; [| split].
  - unfold accumulate. cbn [foldl].
    assert (mergeToolCall R Accum_empty (delta "a" "f" "")
            = mkAccum {[ "a" := mkToolCall "a" "" (mkFunctionCall "f" "") ]} 0)
      as ->.
    { unfold mergeToolCall. simpl. by rewrite insert_empty. }
    rewrite !mergeToolCall_noid_singleton; done.
  - intros seen d Hid Hname Hfrag m m'. subst m m'.
    rewrite accumulate_app. simpl.
    destruct (mergeToolCall_noid_cases R (accumulate R Accum_empty seen) d
                Hid Hname Hfrag) as [Hnone | (k & r & Hk & He & Heq)].
    + by left.
    + right. exists k, r. split; [done |]. split; [done |].
      rewrite Heq. f_equal.
      by apply (accumulate_keyed R Accum_empty seen keyed_empty).
  - intros seen d Hid Hname. rewrite accumulate_app. simpl.
    by apply mergeToolCall_named_noid.
Qed.

Lemma accumulate_idless_fragment_witness :
  (toolCallsMap (accumulate range_backward Accum_empty
                   ([delta "b" "" "{"; delta "a" "f" ""] ++ [delta "" "" "x"]))
   = <["a" := mkToolCall "a" "" (mkFunctionCall "f" "x")]>
       (toolCallsMap (accumulate range_backward Accum_empty
                        [delta "b" "" "{"; delta "a" "f" ""])))
  ∧ accumulate range_backward Accum_empty ([delta "a" "f" ""] ++ [delta "" "g" "x"])
    = accumulate range_backward Accum_empty [delta "a" "f" ""].
Proof.
  destruct (accumulate_idless_fragment range_backward) as (_ & Happend & Hignore).
  split.
  - destruct (Happend [delta "b" "" "{"; delta "a" "f" ""] (delta "" "" "x"))
      as [[Hnone _] | (k & r & Hk & He & Heq)]; [done | done | done | |].
    + exfalso. apply (Hnone "a" (mkToolCall "a" "" (mkFunctionCall "f" ""))).
      * vm_compute. reflexivity.
      * split; done.
    + rewrite Heq.
      destruct (decide (k = "a")) as [-> | Hne].
      * f_equal. vm_compute in Hk. by inversion Hk.
      * exfalso. destruct (decide (k = "b")) as [-> | Hne'].
        -- vm_compute in Hk. inversion Hk; subst. by destruct He.
        -- assert (toolCallsMap (accumulate range_backward Accum_empty
                     [delta "b" "" "{"; delta "a" "f" ""]) !! k = None) as Hnone;
             [| congruence].
           unfold accumulate. simpl. unfold mergeToolCall. simpl.
           rewrite !lookup_insert_ne by done. apply lookup_empty.
  - apply (Hignore [delta "a" "f" ""] (delta "" "g" "x")); done.
Defined.

(** ** The tool executor *)

Lemma Err_inj {A} (e1 e2 : string) : @Err A e1 = Err e2 → e1 = e2.
Proof. by intros [= ->]. Qed.

(** C9. Whatever the tool name, registered or not, when the argument
    string does not decode the call returns the invalid-arguments error,
    not the unknown-tool error: decoding comes before the dispatch. *)
Theorem ExecuteToolCall_invalid_arguments_first (J : JSON) (B : Backends)
    (name arguments err : string) :
  Unmarshal_map J arguments = Err err →
  ExecuteToolCall J B name arguments = Err ("invalid arguments: " +:+ err)
  ∧ ExecuteToolCall J B name arguments ≠ Err ("unknown tool: " +:+ name).
Proof.
  intros Hdec. unfold ExecuteToolCall. rewrite Hdec. split; [done |].
  intros H%Err_inj. cbv in H. discriminate H.
Qed.

Lemma ExecuteToolCall_invalid_arguments_first_witness :
  ExecuteToolCall sample_JSON sample_Backends "no_such_tool" "invalid json"
  = Err ("invalid arguments: " +:+ "invalid character")
  ∧ ExecuteToolCall sample_JSON sample_Backends "no_such_tool" "invalid json"
    ≠ Err ("unknown tool: " +:+ "no_such_tool").
Proof.
  apply (ExecuteToolCall_invalid_arguments_first sample_JSON sample_Backends
           "no_such_tool" "invalid json" "invalid character").
  vm_compute. reflexivity.
Defined.

(** C8, as stated, fails for get_news: called with an object that has
    no topic it does not fail, it fetches the topic world. *)
Lemma get_news_substitutes_default_topic :
  ExecuteToolCall sample_JSON sample_Backends "get_news" "{}"
  = Ok ("Latest world news:" +:+ nl +:+ nl).
Proof. vm_compute. reflexivity. Qed.

(** C8 (amended). With arguments that decode: web_search without a
    query fails with the required-parameter error, and analyze_portfolio
    whose decoded query_type is empty (as when the field is left out)
    fails with its required-field error; get_news without a topic does
    not fail for that reason but fetches the topic world. *)
Theorem ExecuteToolCall_required_fields (J : JSON) (B : Backends)
    (arguments : string) (args : gmap string JValue) :
  Unmarshal_map J arguments = Ok args →
  (args !! "query" = None →
     ExecuteToolCall J B "web_search" arguments
     = Err "query parameter is required")
  ∧ (∀ decoded, Unmarshal_portfolio J arguments = Ok decoded →
       QueryType decoded = "" →
       ExecuteToolCall J B "analyze_portfolio" arguments
       = Err "query_type is required")
  ∧ (args !! "topic" = None →
     ExecuteToolCall J B "get_news" arguments
     = match FetchNews B "world"
               (if (as_int (args !! "max_articles")).2
                then (as_int (args !! "max_articles")).1 else 10%Z) with
       | Err e => Err ("failed to fetch news: " +:+ e)
       | Ok articles =>
           Ok ("Latest world news:" +:+ nl +:+ nl +:+ formatArticles 0 articles)
       end).
Proof.
  intros Hdec. unfold ExecuteToolCall. rewrite Hdec. simpl.
  split; [| split].
  - intros Hq. unfold executeWebSearch. by rewrite Hq.
  - intros decoded Hp Hqt. unfold executeAnalyzePortfolio.
    rewrite Hp. by rewrite decide_True.
  - intros Ht. unfold executeGetNews. rewrite Ht. simpl.
    by destruct (as_int (args !! "max_articles")) as [ma []].
Qed.

Lemma ExecuteToolCall_required_fields_witness :
  ExecuteToolCall sample_JSON sample_Backends "web_search" "{}"
  = Err "query parameter is required"
  ∧ ExecuteToolCall sample_JSON sample_Backends "analyze_portfolio" "{}"
    = Err "query_type is required"
  ∧ ExecuteToolCall sample_JSON sample_Backends "get_news" "{}"
    = Ok ("Latest world news:" +:+ nl +:+ nl).
Proof.
  destruct (ExecuteToolCall_required_fields sample_JSON sample_Backends "{}" ∅)
    as (Hsearch & Hportfolio & Hnews); [vm_compute; reflexivity |].
  split; [apply Hsearch; reflexivity |].
  split; [apply (Hportfolio (mkPortfolioArgs "" "")); reflexivity |].
  rewrite Hnews by reflexivity. vm_compute. reflexivity.
Defined.

(** ** The streaming client *)

Lemma streamEvents_done_last J model lines scanErr i r :
  streamEvents J model lines scanErr !! i = Some r →
  resp_Done r = true →
  S i = length (streamEvents J model lines scanErr).
Proof.
  revert i. induction lines as [|line rest IH]; intros i; simpl.
  - destruct scanErr; [| done]. by destruct i.
  - repeat case_decide; try (by apply IH); try (by destruct i).
    destruct (negb _); [by apply IH |].
    destruct (Unmarshal_chunk J _) as [chunk | err]; [| by destruct i].
    destruct (chunk_Choices chunk) as [|choice choices]; [by apply IH |].
    case_decide as Hfin.
    + by destruct i.
    + destruct i as [|i]; simpl.
      * intros [= <-]. simpl. rewrite bool_decide_eq_true. done.
      * intros Hi Hd. f_equal. by apply IH.
Qed.

Lemma streamEvents_quiet J model lines :
  Forall (quietLine J) lines →
  Forall (λ r, resp_Done r = false) (streamEvents J model lines None).
Proof.
  induction 1 as [|line rest [Hnd Hline] Hrest IH]; simpl; [constructor |].
  case_decide; [done |]. rewrite decide_False by done.
  destruct Hline as [-> | [Hpre | (chunk & Hchunk & Hchoices)]]; [done | |].
  - by rewrite Hpre.
  - destruct (negb _); [done |]. rewrite Hchunk.
    destruct Hchoices as [-> | (choice & choices & -> & Hfin)]; [done |].
    rewrite decide_False by (intros Hne; by apply Hne).
    constructor; [| done]. simpl. rewrite Hfin.
    apply bool_decide_eq_false. intros Hne. by apply Hne.
Qed.

(** ** The handler: bookkeeping *)

Lemma advance_0 s : advance s [] 0 = s.
Proof. destruct s. unfold advance. simpl. by rewrite app_nil_r, Nat.add_0_r. Qed.

Lemma selected_advance s frames n :
  selected (advance s frames n) = advance s frames (S n).
Proof. unfold selected, advance. simpl. by rewrite Nat.add_succ_r. Qed.

Lemma write_advance f s frames n :
  write f (advance s frames n) = advance s (frames ++ [f]) n.
Proof. unfold write, advance. simpl. by rewrite app_assoc. Qed.

Lemma advance_advance s f1 n1 f2 n2 :
  advance (advance s f1 n1) f2 n2 = advance s (f1 ++ f2) (n1 + n2).
Proof. unfold advance. simpl. by rewrite app_assoc, Nat.add_assoc. Qed.

Lemma executeAll_eq J B s toolCalls :
  executeAll J B s toolCalls
  = mkSession (written s)
      (extend (request s) (toolMessage J B <$> toolCalls))
      (opened s) (executed s ++ (callOf <$> toolCalls)) (selects s).
Proof.
  revert s. induction toolCalls as [|tc tcs IH]; intros s.
  - destruct s as [w [md ms st tl] o e n]. unfold executeAll, extend. simpl.
    by rewrite !app_nil_r.
  - unfold executeAll in *. simpl. rewrite IH. unfold extend. simpl.
    by rewrite <- !app_assoc.
Qed.

Lemma roundFrames_nil_ok exit : failure exit = false → roundFrames [] exit.
Proof.
  intros Hf. exists [], []. split; [done |]. split; [constructor |].
  rewrite Hf. by left.
Qed.

Lemma roundFrames_error msg exit :
  failure exit = true → roundFrames [FrameError msg] exit.
Proof.
  intros Hf. exists [], [FrameError msg]. split; [done |].
  split; [constructor |]. rewrite Hf. by eexists.
Qed.

Lemma roundFrames_done r exit :
  failure exit = false → resp_Done r = true → roundFrames [FrameData r] exit.
Proof.
  intros Hf Hd. exists [], [FrameData r]. split; [done |].
  split; [constructor |]. rewrite Hf. right. by exists r.
Qed.

Lemma roundFrames_cons r frames exit :
  resp_Done r = false → roundFrames frames exit →
  roundFrames (FrameData r :: frames) exit.
Proof.
  intros Hd (pre & tail & -> & Hpre & Htail).
  exists (FrameData r :: pre), tail. split; [done |].
  split; [| done]. constructor; [| done]. simpl. by rewrite Hd.
Qed.

(** The resumed round touches neither the history nor the logs, and
    writes the frames of one round. *)
Lemma finalLoop_spec J E stream s :
  ∃ frames n,
    (finalLoop J E s stream).1 = advance s frames n
    ∧ roundFrames frames (finalLoop J E s stream).2.
Proof.
  revert s. induction stream as [|r rest IH]; intros s; simpl.
  - destruct (ctx_done E (selects s)); simpl.
    + exists [FrameError "context cancelled"], 1.
      split; [| by apply roundFrames_error].
      unfold write, selected, advance. simpl. by rewrite Nat.add_1_r.
    + exists [], 1. split; [| by apply roundFrames_nil_ok].
      unfold selected, advance. simpl. by rewrite app_nil_r, Nat.add_1_r.
  - destruct (ctx_done E (selects s)); simpl.
    { exists [FrameError "context cancelled"], 1.
      split; [| by apply roundFrames_error].
      unfold write, selected, advance. simpl. by rewrite Nat.add_1_r. }
    destruct (is_Err (Marshal J r)); simpl.
    { exists [FrameError "failed to marshal response"], 1.
      split; [| by apply roundFrames_error].
      unfold write, selected, advance. simpl. by rewrite Nat.add_1_r. }
    destruct (resp_Done r) eqn:Hd; simpl.
    { exists [FrameData r], 1. split; [| by apply roundFrames_done].
      unfold write, selected, advance. simpl. by rewrite Nat.add_1_r. }
    destruct (IH (write (FrameData r) (selected s))) as (frames & n & Heq & Hrf).
    exists (FrameData r :: frames), (S n). rewrite Heq. split.
    + unfold write, selected, advance. simpl.
      by rewrite <- app_assoc, Nat.add_succ_r.
    + by apply roundFrames_cons.
Qed.

Lemma eligibleCalls_size_0 R a :
  size (toolCallsMap a) = 0 → eligibleCalls R a = [].
Proof.
  intros Hsize%map_size_empty_inv. unfold eligibleCalls.
  pose proof (range_at_perm R (ranges a) (toolCallsMap a)) as Hperm.
  rewrite Hsize, map_to_list_empty in Hperm.
  apply Permutation_nil_r in Hperm. by rewrite Hsize, Hperm.
Qed.


Lemma executeAndContinue_spec J B E s content toolCalls :
  ∃ frames n,
    (executeAndContinue J B E s content toolCalls).1
    = advance (resumed J B s content toolCalls) frames n
    ∧ roundFrames frames (executeAndContinue J B E s content toolCalls).2.
Proof.
  unfold executeAndContinue. rewrite executeAll_eq.
  assert (noteOpened
            (mkSession
               (written (appendMessage
                           (mkChatMessage "assistant" content "" toolCalls) s))
               (extend (request (appendMessage
                                   (mkChatMessage "assistant" content "" toolCalls) s))
                       (toolMessage J B <$> toolCalls))
               (opened (appendMessage
                          (mkChatMessage "assistant" content "" toolCalls) s))
               (executed (appendMessage
                            (mkChatMessage "assistant" content "" toolCalls) s)
                ++ (callOf <$> toolCalls))
               (selects (appendMessage
                           (mkChatMessage "assistant" content "" toolCalls) s)))
          = resumed J B s content toolCalls) as ->.
  { unfold noteOpened, resumed, appendMessage, extend. simpl.
    by rewrite <- !app_assoc. }
  destruct (client_ChatStream E (request (resumed J B s content toolCalls)))
    as [stream | err].
  - apply finalLoop_spec.
  - exists [FrameError ("Failed to get final response: " +:+ err)], 0. simpl.
    split; [| by apply roundFrames_error].
    unfold write, advance. simpl. by rewrite Nat.add_0_r.
Qed.

Lemma received_spec stream :
  if (received stream).2
  then ∃ pre r, (received stream).1 = pre ++ [r]
                ∧ Forall (λ r, resp_Done r = false) pre ∧ resp_Done r = true
  else Forall (λ r, resp_Done r = false) (received stream).1.
Proof.
  induction stream as [|r rest IH]; simpl; [constructor |].
  destruct (resp_Done r) eqn:Hd; simpl.
  - exists [], r. split; [done |]. split; [constructor | done].
  - destruct (received rest).2.
    + destruct IH as (pre & r' & -> & Hpre & Hd').
      exists (r :: pre), r'. split; [done |]. split; [by constructor | done].
    + by constructor.
Qed.

Lemma framesOf_quiet seen :
  Forall (λ r, resp_Done r = false) seen →
  Forall (λ f, relayed f = true) (framesOf seen).
Proof.
  intros Hall. unfold framesOf. rewrite Forall_fmap.
  apply Forall_forall. intros r Hr%list_elem_of_filter. simpl.
  rewrite Forall_forall in Hall. rewrite (Hall r); [done |]. by destruct Hr.
Qed.

Lemma framesOf_app l1 l2 : framesOf (l1 ++ l2) = framesOf l1 ++ framesOf l2.
Proof. unfold framesOf. by rewrite filter_app, fmap_app. Qed.

Lemma framesOf_roundFrames stream exit :
  failure exit = false →
  roundFrames (framesOf (received stream).1) exit.
Proof.
  intros Hf. pose proof (received_spec stream) as Hspec.
  destruct (received stream).2.
  - destruct Hspec as (pre & r & -> & Hpre & Hd). rewrite framesOf_app.
    exists (framesOf pre), (framesOf [r]). split; [done |].
    split; [by apply framesOf_quiet |]. rewrite Hf.
    unfold framesOf. simpl. rewrite filter_cons, filter_nil.
    case_decide; simpl; [right; by exists r | by left].
  - exists (framesOf (received stream).1), []. rewrite app_nil_r.
    split; [done |]. split; [by apply framesOf_quiet |]. rewrite Hf. by left.
Qed.

(** ** The handler: the first round *)

Lemma uninterrupted_nil J E from :
  uninterrupted J E from [] false = negb (ctx_done E from).
Proof. unfold uninterrupted. simpl. by rewrite !andb_true_r. Qed.

Lemma uninterrupted_done J E from r :
  uninterrupted J E from [r] true
  = negb (ctx_done E from) && negb (forwarded r && is_Err (Marshal J r)).
Proof. unfold uninterrupted. simpl. by rewrite !andb_true_r. Qed.

Lemma uninterrupted_cons J E from r seen completed :
  seen ≠ [] ∨ completed = false →
  uninterrupted J E from (r :: seen) completed
  = negb (ctx_done E from) && negb (forwarded r && is_Err (Marshal J r))
    && uninterrupted J E (S from) seen completed.
Proof.
  intros Hne. unfold uninterrupted, selectsOf.
  assert ((if completed then length (r :: seen) else S (length (r :: seen)))
          = S (if completed then length seen else S (length seen))) as ->
    by (by destruct completed).
  simpl. destruct (ctx_done E from); simpl; [done |].
  destruct (forallb _ (seq _ _)); simpl; [done |].
  by rewrite andb_false_r.
Qed.

Lemma received_nonempty r rest :
  (received (r :: rest)).1 ≠ [].
Proof. simpl. by destruct (resp_Done r). Qed.

Lemma forward_step r s :
  (if forwarded r then write (FrameData r) (selected s) else selected s)
  = advance s (framesOf [r]) 1.
Proof.
  unfold framesOf. rewrite filter_cons, filter_nil.
  destruct (forwarded r) eqn:Hf.
  - rewrite decide_True by done. unfold write, selected, advance. simpl.
    by rewrite Nat.add_1_r.
  - rewrite decide_False by done. unfold selected, advance. simpl.
    by rewrite app_nil_r, Nat.add_1_r.
Qed.

(** A first round that is neither cancelled nor hit by a marshalling
    failure takes the responses up to the first one marked done, forwards
    those with content or tool calls, and then either hands the eligible
    calls to [executeAndContinue] or returns. *)
Lemma streamLoop_uninterrupted J B E stream s l :
  uninterrupted J E (selects s) (received stream).1 (received stream).2 = true →
  streamLoop J B E s l stream
  = let seen := (received stream).1 in
    let completed := (received stream).2 in
    let l' := foldl (collect E) l seen in
    let s' := advance s (framesOf seen) (selectsOf seen completed) in
    let toolCalls := eligibleCalls (runtime E) (calls l') in
    if (negb completed || bool_decide (finishReason l' = "tool_calls"))
       && bool_decide (0 < length toolCalls)
    then executeAndContinue J B E s' (assistantContent l') toolCalls
    else (s', if completed then ExitDone else ExitClosed).
Proof.
  revert s l. induction stream as [|r rest IH]; intros s l.
  - cbn [received fst snd]. rewrite uninterrupted_nil. intros Hc.
    apply negb_true_iff in Hc. cbn [streamLoop foldl]. rewrite Hc.
    cbn zeta. unfold framesOf, selectsOf. cbn [filter fmap list_fmap length].
    assert (selected s = advance s [] 1) as ->.
    { unfold selected, advance. by rewrite app_nil_r, Nat.add_1_r. }
    cbn [negb orb andb].
    destruct (decide (0 < size (toolCallsMap (calls l)))) as [Hsz | Hsz].
    + by destruct (decide (0 < length (eligibleCalls (runtime E) (calls l))));
        [rewrite bool_decide_eq_true_2 | rewrite bool_decide_eq_false_2].
    + rewrite eligibleCalls_size_0 by lia. by simpl.
  - cbn [received]. destruct (resp_Done r) eqn:Hd; cbn [fst snd].
    + rewrite uninterrupted_done. intros [Hc Hm]%andb_true_iff.
      apply negb_true_iff in Hc, Hm. cbn [streamLoop foldl]. rewrite Hc.
      cbn zeta. rewrite Hm, Hd.
      rewrite forward_step. change (selectsOf [r] true) with 1.
      cbn [negb orb].
      destruct (decide (0 < size (toolCallsMap (calls (collect E l r)))
                        ∧ finishReason (collect E l r) = "tool_calls"))
        as [[Hsz Hfr] | Hno].
      * rewrite (bool_decide_eq_true_2 _ Hfr). cbn [andb].
        by destruct (decide (0 < length (eligibleCalls (runtime E)
                                           (calls (collect E l r)))));
          [rewrite bool_decide_eq_true_2 | rewrite bool_decide_eq_false_2].
      * destruct (decide (finishReason (collect E l r) = "tool_calls"))
          as [Hfr | Hfr].
        -- assert (size (toolCallsMap (calls (collect E l r))) = 0) as Hz.
           { destruct (decide (0 < size (toolCallsMap (calls (collect E l r)))));
               [by destruct Hno | lia]. }
           rewrite (eligibleCalls_size_0 _ _ Hz). simpl.
           by rewrite andb_false_r.
        -- by rewrite (bool_decide_eq_false_2 _ Hfr).
    + rewrite uninterrupted_cons
        by (destruct rest; [by right | left; apply received_nonempty]).
      intros [[Hc Hm]%andb_true_iff Hrest]%andb_true_iff.
      apply negb_true_iff in Hc, Hm. cbn [streamLoop foldl]. rewrite Hc.
      cbn zeta. rewrite Hm, Hd.
      rewrite forward_step. rewrite IH.
      2:{ simpl. by rewrite Nat.add_1_r. }
      cbn zeta. rewrite advance_advance.
      change (r :: (received rest).1) with ([r] ++ (received rest).1).
      rewrite framesOf_app.
      assert (1 + selectsOf (received rest).1 (received rest).2
              = selectsOf ([r] ++ (received rest).1) (received rest).2) as ->.
      { unfold selectsOf. simpl. by destruct (received rest).2. }
      done.
Qed.

Lemma roundFrames_app_quiet pre frames exit :
  Forall (λ f, relayed f = true) pre → roundFrames frames exit →
  roundFrames (pre ++ frames) exit.
Proof.
  intros Hq (pre' & tail & -> & Hpre & Htail).
  exists (pre ++ pre'), tail. rewrite app_assoc. split; [done |].
  split; [by apply Forall_app | done].
Qed.

Lemma framesOf_single_quiet r :
  resp_Done r = false → Forall (λ f, relayed f = true) (framesOf [r]).
Proof. intros Hd. apply framesOf_quiet. by constructor. Qed.

(** A first round that is cancelled, or in which a response fails to
    marshal, ends there with the handler's error frame: nothing is
    executed and no other stream is opened. *)
Lemma streamLoop_interrupted J B E stream s l :
  uninterrupted J E (selects s) (received stream).1 (received stream).2 = false →
  ∃ frames n,
    (streamLoop J B E s l stream).1 = advance s frames n
    ∧ roundFrames frames (streamLoop J B E s l stream).2
    ∧ failure (streamLoop J B E s l stream).2 = true.
Proof.
  assert (∀ s msg, write (FrameError msg) (selected s)
                   = advance s [FrameError msg] 1) as Hw.
  { intros s' msg. unfold write, selected, advance. simpl.
    by rewrite Nat.add_1_r. }
  revert s l. induction stream as [|r rest IH]; intros s l.
  - cbn [received fst snd]. rewrite uninterrupted_nil. intros Hc.
    apply negb_false_iff in Hc. cbn [streamLoop]. rewrite Hc. simpl.
    exists [FrameError "context cancelled"], 1. rewrite Hw.
    split; [done |]. split; [by apply roundFrames_error | done].
  - cbn [received streamLoop].
    destruct (ctx_done E (selects s)) eqn:Hc.
    { intros _. exists [FrameError "context cancelled"], 1. rewrite Hw.
      split; [done |]. split; [by apply roundFrames_error | done]. }
    cbn zeta.
    destruct (forwarded r && is_Err (Marshal J r)) eqn:Hm.
    { intros _. exists [FrameError "failed to marshal response"], 1.
      rewrite Hw. split; [done |]. split; [by apply roundFrames_error | done]. }
    destruct (resp_Done r) eqn:Hd; cbn [fst snd].
    + rewrite uninterrupted_done, Hc, Hm. done.
    + rewrite uninterrupted_cons
        by (destruct rest; [by right | left; apply received_nonempty]).
      rewrite Hc, Hm. cbn [negb andb]. intros Hrest.
      rewrite forward_step.
      destruct (IH (advance s (framesOf [r]) 1) (collect E l r))
        as (frames & n & Heq & Hrf & Hfail).
      { simpl. by rewrite Nat.add_1_r. }
      exists (framesOf [r] ++ frames), (1 + n).
      rewrite Heq, advance_advance. split; [done |].
      split; [| done]. apply roundFrames_app_quiet; [| done].
      by apply framesOf_single_quiet.
Qed.

(** ** The handler: a whole request *)

(** The session in which the first stream is opened. *)
Lemma streamWithFunctionCalling_start J B E req :
  streamWithFunctionCalling J B E req
  = let s0 := mkSession [] (firstRequest B req) [firstRequest B req] [] 0 in
    match client_ChatStream E (firstRequest B req) with
    | Err _ => (write (FrameError "Failed to start chat") s0, ExitStartFailed)
    | Ok stream => streamLoop J B E s0 Locals_start stream
    end.
Proof. reflexivity. Qed.

(** How a request whose first stream opens ends, by the shape of the
    first round. *)
Lemma streamWithFunctionCalling_cases J B E req stream :
  client_ChatStream E (firstRequest B req) = Ok stream →
  let res := streamWithFunctionCalling J B E req in
  let s0 := mkSession [] (firstRequest B req) [firstRequest B req] [] 0 in
  let seen := (received stream).1 in
  let completed := (received stream).2 in
  let l := foldl (collect E) Locals_start seen in
  let toolCalls := eligibleCalls (runtime E) (calls l) in
  if uninterrupted J E 0 seen completed then
    if (negb completed || bool_decide (finishReason l = "tool_calls"))
       && bool_decide (0 < length toolCalls)
    then ∃ frames n,
           res.1 = advance (resumed J B
                              (advance s0 (framesOf seen)
                                          (selectsOf seen completed))
                              (assistantContent l) toolCalls) frames n
           ∧ roundFrames frames res.2
    else res = (advance s0 (framesOf seen) (selectsOf seen completed),
                if completed then ExitDone else ExitClosed)
  else ∃ frames n,
         res.1 = advance s0 frames n ∧ roundFrames frames res.2
         ∧ failure res.2 = true.
Proof.
  intros Hstream res s0 seen completed l toolCalls. subst res.
  rewrite streamWithFunctionCalling_start. cbn zeta. rewrite Hstream.
  fold s0. destruct (uninterrupted J E 0 seen completed) eqn:Hu.
  - rewrite (streamLoop_uninterrupted J B E stream s0 Locals_start Hu).
    cbn zeta. fold seen completed l toolCalls.
    destruct ((negb completed || bool_decide (finishReason l = "tool_calls"))
              && bool_decide (0 < length toolCalls)); [| done].
    apply executeAndContinue_spec.
  - by apply (streamLoop_interrupted J B E stream s0 Locals_start).
Qed.

Lemma elem_of_eligibleCalls R a tc :
  tc ∈ eligibleCalls R a
  ↔ eligible tc ∧ ∃ k, toolCallsMap a !! k = Some tc.
Proof.
  unfold eligibleCalls. rewrite list_elem_of_filter, list_elem_of_fmap.
  split.
  - intros [He ([k r] & -> & Hin)]. split; [done |]. exists k.
    by apply (elem_of_range_at R (ranges a)).
  - intros [He [k Hk]]. split; [done |]. exists (k, tc). split; [done |].
    by apply (elem_of_range_at R (ranges a)).
Qed.

Lemma eligibleCalls_none R a :
  (∀ k r, toolCallsMap a !! k = Some r → ¬ eligible r) →
  eligibleCalls R a = [].
Proof.
  intros Hnone. destruct (eligibleCalls R a) as [|tc tcs] eqn:Heq; [done |].
  assert (tc ∈ eligibleCalls R a) as [He [k Hk]]%elem_of_eligibleCalls
    by (rewrite Heq; left).
  by destruct (Hnone k tc).
Qed.

Lemma length_0_nil {A} (l : list A) : ¬ 0 < length l → l = [].
Proof. destruct l; simpl; [done | lia]. Qed.

(** C3, as stated, fails: a first round whose stream closes without any
    completion still executes the eligible call it collected. *)
Lemma tools_executed_without_completion :
  executed (streamWithFunctionCalling sample_JSON sample_Backends
              (scripted [toolCallDeltas [delta "1" "web_search" "{}"]]
                        [completion "stop"] never range_forward)
              sample_request).1
  = [("web_search", "{}")].
Proof. vm_compute. reflexivity. Qed.

(** C3 (amended). The executor is called exactly for the calls that are
    eligible at the end of a first round that is not interrupted and
    that either closes without a completion or completes with the
    recorded finish reason tool_calls; nothing is executed from the
    resumed round. In particular a round with no eligible record
    executes nothing, and neither does a completion recorded with
    another reason. *)
Theorem tools_executed_exactly_when (J : JSON) (B : Backends) (E : Env)
    (req : ChatRequest) :
  executed (streamWithFunctionCalling J B E req).1
  = match client_ChatStream E (firstRequest B req) with
    | Err _ => []
    | Ok stream =>
        let seen := (received stream).1 in
        let completed := (received stream).2 in
        let l := foldl (collect E) Locals_start seen in
        if uninterrupted J E 0 seen completed
           && (negb completed || bool_decide (finishReason l = "tool_calls"))
        then callOf <$> eligibleCalls (runtime E) (calls l)
        else []
    end
  ∧ (∀ stream,
       client_ChatStream E (firstRequest B req) = Ok stream →
       (∀ k r, toolCallsMap
                 (calls (foldl (collect E) Locals_start (received stream).1))
               !! k = Some r → ¬ eligible r) →
       executed (streamWithFunctionCalling J B E req).1 = [])
  ∧ (∀ stream,
       client_ChatStream E (firstRequest B req) = Ok stream →
       (received stream).2 = true →
       finishReason (foldl (collect E) Locals_start (received stream).1)
       ≠ "tool_calls" →
       executed (streamWithFunctionCalling J B E req).1 = []).
Proof.
  assert (executed (streamWithFunctionCalling J B E req).1
          = match client_ChatStream E (firstRequest B req) with
            | Err _ => []
            | Ok stream =>
                let seen := (received stream).1 in
                let completed := (received stream).2 in
                let l := foldl (collect E) Locals_start seen in
                if uninterrupted J E 0 seen completed
                   && (negb completed
                       || bool_decide (finishReason l = "tool_calls"))
                then callOf <$> eligibleCalls (runtime E) (calls l)
                else []
            end) as Heq.
  { destruct (client_ChatStream E (firstRequest B req)) as [stream | err]
      eqn:Hstream.
    - pose proof (streamWithFunctionCalling_cases J B E req stream Hstream)
        as Hcases. cbn zeta in Hcases. cbn zeta.
      destruct (uninterrupted J E 0 _ _); cbn [andb].
      + destruct (negb _ || bool_decide _); cbn [andb] in *.
        * case_bool_decide as Hlen.
          -- destruct Hcases as (frames & n & -> & _). simpl. done.
          -- rewrite Hcases. simpl. by rewrite (length_0_nil _ Hlen).
        * by rewrite Hcases.
      + by destruct Hcases as (frames & n & -> & _).
    - rewrite streamWithFunctionCalling_start. cbn zeta.
      by rewrite Hstream. }
  split; [exact Heq |]. split.
  - intros stream Hstream Hnone. rewrite Heq, Hstream. cbn zeta.
    rewrite (eligibleCalls_none _ _ Hnone). by destruct (_ && _).
  - intros stream Hstream Hc Hfr. rewrite Heq, Hstream. cbn zeta.
    rewrite Hc, (bool_decide_eq_false_2 _ Hfr). simpl.
    by rewrite andb_false_r.
Qed.

Lemma tools_executed_exactly_when_witness :
  executed (streamWithFunctionCalling sample_JSON sample_Backends
              (scripted [toolCallDeltas [delta "1" "web_search" "{}"];
                         toolCallsCompletion []]
                        [toolCallsCompletion [delta "2" "get_news" "{}"]]
                        never range_forward)
              sample_request).1
  = [("web_search", "{}")]
  ∧ executed (streamWithFunctionCalling sample_JSON sample_Backends
                (scripted [toolCallDeltas [delta "1" "" "{}"];
                           toolCallsCompletion []]
                          [completion "stop"] never range_forward)
                sample_request).1
    = []
  ∧ executed (streamWithFunctionCalling sample_JSON sample_Backends
                (scripted [toolCallDeltas [delta "1" "web_search" "{}"];
                           completion "stop"]
                          [completion "stop"] never range_forward)
                sample_request).1
    = [].
Proof.
  split; [| split].
  - rewrite (proj1 (tools_executed_exactly_when _ _ _ _)).
    vm_compute. reflexivity.
  - eapply (proj1 (proj2 (tools_executed_exactly_when _ _ _ _))).
    + vm_compute. reflexivity.
    + intros k r Hk [Hid Hname]. vm_compute in Hk.
      destruct (decide (k = "1")) as [-> | Hne].
      * vm_compute in Hk. injection Hk as <-. by apply Hname.
      * revert Hk. change (<["1" := mkToolCall "1" "" (mkFunctionCall "" "{}")]>
                             (∅ : gmap string ToolCall) !! k = Some r → False).
        rewrite lookup_insert_ne by done. by rewrite lookup_empty.
  - eapply (proj2 (proj2 (tools_executed_exactly_when _ _ _ _))).
    + vm_compute. reflexivity.
    + vm_compute. reflexivity.
    + vm_compute. congruence.
Defined.






Lemma collect_calls E l seen :
  calls (foldl (collect E) l seen)
  = accumulate (runtime E) (calls l)
      (concat ((λ r, msg_ToolCalls (resp_Message r)) <$> seen)).
Proof.
  revert l. induction seen as [|r seen IH]; intros l; simpl; [done |].
  rewrite IH. simpl. by rewrite accumulate_app.
Qed.

(** *** What the iteration order can and cannot change *)
















(** ** The terminal frame of a plain chat *)

(** C2. The claim fails on a plain chat. The back end streams a content
    chunk, a chunk with the finish reason stop and the end marker; the
    client sends the content event and the completion. The handler
    forwards the content, drops the completion because it carries
    neither content nor tool calls (line 170) and returns on it (line
    202): the browser receives one frame, not marked done, and then the
    end of the body. The loop of the resumed round (lines 244-270)
    forwards the same two responses, the completion last. The error
    event that the client sends when the scanner fails is dropped by
    the same test, so the browser is not told of it. When the resumed
    stream cannot be opened, line 238 puts the error text into the
    frame as it is, quote characters included. *)
Theorem completion_dropped_in_first_round :
  let hi := mkChatResponse "" (mkChatMessage "" "hi" "" []) false "" "" in
  let stop := mkChatResponse "" ChatMessage_zero true "stop" "" in
  let E := mkEnv (ChatStream sample_JSON post_hi_stop) never range_forward in
  let res :=
    streamWithFunctionCalling sample_JSON sample_Backends E sample_request in
  let broken :=
    mkChatResponse "m" ChatMessage_zero true ""
                   "scanner error: unexpected EOF" in
  let E' :=
    mkEnv (ChatStream sample_JSON
             (λ _ _, HTTPStream ["data: " +:+ chunk_hi]
                                (Some "unexpected EOF")))
          never range_forward in
  let res' :=
    streamWithFunctionCalling sample_JSON sample_Backends E' sample_request in
  let body := "{" +:+ quoted "error" +:+ ":" +:+ quoted "busy" +:+ "}" in
  let E'' :=
    mkEnv (λ req,
             if decide (length (req_Messages req) = 1)
             then Ok [toolCallsCompletion [delta "1" "web_search" args_query_x]]
             else ChatStream sample_JSON (λ _ _, HTTPStatus 500 body) req)
          never range_forward in
  let res'' :=
    streamWithFunctionCalling sample_JSON sample_Backends E'' sample_request in
  (client_ChatStream E (firstRequest sample_Backends sample_request)
   = Ok [hi; stop]
   ∧ written res.1 = [FrameData hi]
   ∧ res.2 = ExitDone)
  ∧ written (finalLoop sample_JSON E (Session_start sample_request)
                       [hi; stop]).1
    = [FrameData hi; FrameData stop]
  ∧ (client_ChatStream E' (firstRequest sample_Backends sample_request)
     = Ok [hi; broken]
     ∧ written res'.1 = [FrameData hi]
     ∧ res'.2 = ExitDone)
  ∧ (last (written res''.1)
     = Some (FrameError
               ("Failed to get final response: failed to start chat: "
                +:+ "status 500: " +:+ body))
     ∧ errorFrame ("Failed to get final response: failed to start chat: "
                   +:+ "status 500: " +:+ body)
       = "data: {" +:+ quote +:+ "done" +:+ quote +:+ ": true, "
         +:+ quote +:+ "error" +:+ quote +:+ ": " +:+ quote
         +:+ "Failed to get final response: failed to start chat: "
         +:+ "status 500: {" +:+ quote +:+ "error" +:+ quote +:+ ":"
         +:+ quote +:+ "busy" +:+ quote +:+ "}" +:+ quote +:+ "}"
         +:+ nl +:+ nl).
Proof. vm_compute. repeat split; reflexivity. Qed.

(** ** Worked scenarios *)

Example accumulate_two_ids :
  toolCallsMap (accumulate range_forward Accum_empty
     [delta "a" "f" "{"; delta "b" "g" ""; delta "a" "" "}"]) !! "a"
  = Some (mkToolCall "a" "" (mkFunctionCall "f" "{}")).
Proof. vm_compute. reflexivity. Qed.

(** A record without a name is kept in the map but is not eligible. *)
Example nameless_record_not_eligible :
  eligibleCalls range_forward
    (accumulate range_forward Accum_empty [delta "a" "" "{}"; delta "" "" "x"])
  = [].
Proof. vm_compute. reflexivity. Qed.

(** The client on a stream of a content chunk, a finish chunk and the
    end marker: the finish chunk is the last event, the marker is not
    read. *)
Example streamEvents_hi_stop :
  ChatStream sample_JSON post_hi_stop sample_request
  = Ok [mkChatResponse "" (mkChatMessage "" "hi" "" []) false "" "";
        mkChatResponse "" ChatMessage_zero true "stop" ""].
Proof. vm_compute. reflexivity. Qed.

(** One tool call with its arguments in the completing chunk: the
    executor is called once with them, and the history of the resumed
    round ends with the tool message of that call. *)
Example one_tool_round :
  let res := streamWithFunctionCalling sample_JSON sample_Backends
               (scripted [toolCallsCompletion
                            [delta "1" "web_search" args_query_x]]
                         [contentDelta "done"; completion "stop"]
                         never range_forward)
               sample_request in
  executed res.1 = [("web_search", args_query_x)]
  ∧ last (req_Messages (request res.1))
    = Some (mkChatMessage "tool"
              "Error executing tool web_search: search failed: connection refused"
              "1" [])
  ∧ length (opened res.1) = 2
  ∧ res.2 = ExitDone.
Proof. vm_compute. repeat split; reflexivity. Qed.

(** A deadline that has already passed: the first select takes the
    cancellation, and the only frame is the error frame. *)
Example cancelled_at_once :
  let res := streamWithFunctionCalling sample_JSON sample_Backends
               (scripted [contentDelta "hi"; completion "stop"] []
                         (λ _, true) range_forward)
               sample_request in
  written res.1 = [FrameError "context cancelled"] ∧ res.2 = ExitCancelled.
Proof. vm_compute. split; reflexivity. Qed.

(** A stream that cannot be opened. *)
Example start_failure :
  let res := streamWithFunctionCalling sample_JSON sample_Backends
               (mkEnv (ChatStream sample_JSON
                         (λ _ _, HTTPStatus 503 "loading model"))
                      never range_forward)
               sample_request in
  written res.1 = [FrameError "Failed to start chat"]
  ∧ res.2 = ExitStartFailed.
Proof. vm_compute. split; reflexivity. Qed.

(** * Further properties of the code *)

(** ** The accumulator *)

Lemma mergeToolCall_nonempty_keys R a d :
  (∀ k r, toolCallsMap a !! k = Some r → k ≠ "") →
  keyed (toolCallsMap a) →
  ∀ k r, toolCallsMap (mergeToolCall R a d) !! k = Some r → k ≠ "".
Proof.
  intros Hne Hkeyed k r. destruct (decide (tc_ID d ≠ "")) as [Hid | Hid].
  - destruct (mergeToolCall_id_lookup R a d Hid) as (r' & -> & _).
    rewrite lookup_insert. case_decide; [by subst | apply Hne].
  - apply dec_stable in Hid.
    destruct (decide (fc_Arguments (tc_Function d) ≠ ""
                      ∧ fc_Name (tc_Function d) = "")) as [[Ha Hn] | Hno].
    + destruct (mergeToolCall_noid_cases R a d Hid Hn Ha)
        as [[_ ->] | (k0 & r0 & Hk0 & _ & ->)]; [apply Hne |].
      rewrite (Hkeyed _ _ Hk0), lookup_insert.
      case_decide; [subst; intros _; by eapply Hne | apply Hne].
    + unfold mergeToolCall. rewrite decide_False by (intros H; by apply H).
      rewrite decide_False by done. apply Hne.
Qed.

Lemma accumulate_nonempty_keys R deltas k r :
  toolCallsMap (accumulate R Accum_empty deltas) !! k = Some r → k ≠ "".
Proof.
  assert (∀ a, (∀ k r, toolCallsMap a !! k = Some r → k ≠ "") →
               keyed (toolCallsMap a) →
               ∀ k r, toolCallsMap (accumulate R a deltas) !! k = Some r →
                      k ≠ "") as Hgen.
  { induction deltas as [|d deltas IH]; intros a Hne Hk; simpl; [done |].
    apply IH; [by apply mergeToolCall_nonempty_keys
              | by apply mergeToolCall_keyed]. }
  apply Hgen; [| apply keyed_empty].
  intros k' r'. simpl. by rewrite lookup_empty.
Qed.

(** X1. Every record of the accumulated map is stored under its own
    call id, and that id is not empty: a record without id is never
    created, so a record is eligible exactly when it has a name. *)
Theorem accumulate_records_have_ids (R : MapRange) (deltas : list ToolCall)
    (k : string) (r : ToolCall) :
  toolCallsMap (accumulate R Accum_empty deltas) !! k = Some r →
  tc_ID r = k ∧ tc_ID r ≠ ""
  ∧ (eligible r ↔ fc_Name (tc_Function r) ≠ "").
Proof.
  intros Hr.
  pose proof (accumulate_keyed R Accum_empty deltas keyed_empty k r Hr) as Hk.
  pose proof (accumulate_nonempty_keys R deltas k r Hr) as Hne.
  split; [done |]. split; [congruence |].
  unfold eligible. split; [by intros [_ ?] | intros ?; split; congruence].
Qed.

Lemma accumulate_records_have_ids_witness :
  tc_ID (mkToolCall "a" "" (mkFunctionCall "" "x")) = "a"
  ∧ ¬ eligible (mkToolCall "a" "" (mkFunctionCall "" "x")).
Proof.
  destruct (accumulate_records_have_ids range_forward
              [delta "" "" "y"; delta "a" "" "x"] "a"
              (mkToolCall "a" "" (mkFunctionCall "" "x")))
    as (Hid & _ & Hel).
  - vm_compute. reflexivity.
  - split; [exact Hid |]. intros He. by apply Hel in He.
Defined.

Lemma mergeToolCall_same_id R1 R2 a1 a2 d :
  tc_ID d ≠ "" →
  toolCallsMap a1 !! tc_ID d = toolCallsMap a2 !! tc_ID d →
  toolCallsMap (mergeToolCall R1 a1 d) !! tc_ID d
  = toolCallsMap (mergeToolCall R2 a2 d) !! tc_ID d.
Proof.
  intros Hid Heq. unfold mergeToolCall.
  rewrite !(decide_True (P := tc_ID d ≠ "")) by done.
  simpl. rewrite !lookup_insert_eq. by rewrite Heq.
Qed.

Lemma mergeToolCall_other_id R a d k :
  tc_ID d ≠ "" → tc_ID d ≠ k →
  toolCallsMap (mergeToolCall R a d) !! k = toolCallsMap a !! k.
Proof.
  intros Hid Hne. destruct (mergeToolCall_id_lookup R a d Hid) as (r' & -> & _).
  by rewrite lookup_insert_ne.
Qed.

(** X2. When every delta carries a call id, the record accumulated for
    an id depends only on the deltas that carry that id, in their order:
    deltas of other calls interleaved with them change nothing. *)
Theorem accumulate_ids_do_not_interfere (R : MapRange) (deltas : list ToolCall)
    (k : string) :
  Forall (λ d, tc_ID d ≠ "") deltas →
  toolCallsMap (accumulate R Accum_empty deltas) !! k
  = toolCallsMap (accumulate R Accum_empty
                    (filter (λ d, tc_ID d = k) deltas)) !! k.
Proof.
  assert (∀ a1 a2, toolCallsMap a1 !! k = toolCallsMap a2 !! k →
            Forall (λ d, tc_ID d ≠ "") deltas →
            toolCallsMap (accumulate R a1 deltas) !! k
            = toolCallsMap (accumulate R a2 (filter (λ d, tc_ID d = k) deltas))
              !! k) as Hgen.
  { induction deltas as [|d deltas IH]; intros a1 a2 Heq Hall; [done |].
    inversion Hall as [|? ? Hd Hrest]; subst.
    rewrite filter_cons. simpl. case_decide as Hk.
    - simpl. apply IH; [| done]. subst k. by apply mergeToolCall_same_id.
    - apply IH; [| done]. by rewrite mergeToolCall_other_id. }
  by apply Hgen.
Qed.

Lemma accumulate_ids_do_not_interfere_witness :
  toolCallsMap (accumulate range_backward Accum_empty
                  [delta "a" "f" "{"; delta "b" "g" "["; delta "a" "" "}";
                   delta "b" "" "]"]) !! "a"
  = Some (mkToolCall "a" "" (mkFunctionCall "f" "{}")).
Proof.
  rewrite (accumulate_ids_do_not_interfere range_backward
             [delta "a" "f" "{"; delta "b" "g" "["; delta "a" "" "}";
              delta "b" "" "]"] "a").
  - vm_compute. reflexivity.
  - repeat constructor; vm_compute; congruence.
Defined.

(** ** The first round's locals *)

Lemma collect_content E l seen :
  assistantContent (foldl (collect E) l seen)
  = assistantContent l +:+ contentOf seen.
Proof.
  revert l. induction seen as [|r seen IH]; intros l; simpl.
  - by rewrite string_app_nil_r.
  - rewrite IH. simpl. case_decide as Hc.
    + by rewrite string_app_assoc.
    + rewrite Hc.
      change ("" +:+ contentOf seen) with (contentOf seen). done.
Qed.

Lemma collect_finishReason_quiet E l seen :
  Forall (λ r, resp_DoneReason r = "") seen →
  finishReason (foldl (collect E) l seen) = finishReason l.
Proof.
  revert l. induction seen as [|r seen IH]; intros l Hall; simpl; [done |].
  inversion Hall as [|? ? Hr Hrest]; subst. rewrite IH by done. simpl.
  by rewrite decide_False by (intros H; by apply H).
Qed.

(** X3. What a round collects does not depend on how the stream is cut
    into responses: the content is the concatenation of the contents in
    arrival order, the tool calls are accumulated as from the single
    sequence of all deltas, and the finish reason is the last one that
    is not empty. *)
Theorem collect_ignores_chunking (E : Env) (seen : list ChatResponse) :
  assistantContent (foldl (collect E) Locals_start seen) = contentOf seen
  ∧ calls (foldl (collect E) Locals_start seen)
    = accumulate (runtime E) Accum_empty
        (concat ((λ r, msg_ToolCalls (resp_Message r)) <$> seen))
  ∧ (∀ pre r post,
       seen = pre ++ r :: post →
       resp_DoneReason r ≠ "" →
       Forall (λ r', resp_DoneReason r' = "") post →
       finishReason (foldl (collect E) Locals_start seen) = resp_DoneReason r).
Proof.
  split; [| split].
  - by rewrite collect_content.
  - apply collect_calls.
  - intros pre r post -> Hr Hpost.
    rewrite foldl_app. simpl. rewrite collect_finishReason_quiet by done.
    simpl. by rewrite decide_True.
Qed.

Lemma collect_ignores_chunking_witness :
  finishReason
    (foldl (collect (scripted [] [] never range_forward)) Locals_start
       ([contentDelta "a"] ++ completion "stop" :: [contentDelta "b"]))
  = "stop".
Proof.
  apply (proj2 (proj2 (collect_ignores_chunking
                         (scripted [] [] never range_forward)
                         ([contentDelta "a"] ++ completion "stop"
                          :: [contentDelta "b"])))
           [contentDelta "a"] (completion "stop") [contentDelta "b"]).
  - reflexivity.
  - vm_compute. congruence.
  - repeat constructor.
Defined.

(** ** A whole request: history and relay *)

Lemma streamWithFunctionCalling_session J B E req :
  let s0 := mkSession [] (firstRequest B req) [firstRequest B req] [] 0 in
  ∃ frames n,
    (streamWithFunctionCalling J B E req).1 = advance s0 frames n
    ∨ ∃ f m content toolCalls,
        toolCalls ≠ []
        ∧ (streamWithFunctionCalling J B E req).1
          = advance (resumed J B (advance s0 f m) content toolCalls) frames n.
Proof.
  intros s0.
  destruct (client_ChatStream E (firstRequest B req)) as [stream | err]
    eqn:Hstream.
  - pose proof (streamWithFunctionCalling_cases J B E req stream Hstream)
      as Hcases. cbn zeta in Hcases. fold s0 in Hcases.
    destruct (uninterrupted J E 0 _ _).
    + destruct (negb _ || bool_decide _); cbn [andb] in Hcases.
      * case_bool_decide as Hlen.
        -- destruct Hcases as (frames & n & Heq & _).
           exists frames, n. right. do 4 eexists. split; [| exact Heq].
           intros Hnil. rewrite Hnil in Hlen. simpl in Hlen. lia.
        -- rewrite Hcases. simpl. do 2 eexists. by left.
      * rewrite Hcases. simpl. do 2 eexists. by left.
    + destruct Hcases as (frames & n & Heq & _). exists frames, n. by left.
  - rewrite streamWithFunctionCalling_start. cbn zeta. rewrite Hstream. simpl.
    exists [FrameError "Failed to start chat"], 0. left.
    unfold write, advance. simpl. done.
Qed.

(** X4. The handler never rewrites what the caller sent: the model and
    the stream flag are kept, the tool list is replaced by the enabled
    tools whatever the caller supplied, the caller's messages stay the
    beginning of the history, and this holds for every request sent to
    the chat client; the last request sent carries the final history. *)
Theorem history_only_grows (J : JSON) (B : Backends) (E : Env)
    (req : ChatRequest) :
  req_Model (request (streamWithFunctionCalling J B E req).1) = req_Model req
  ∧ req_Stream (request (streamWithFunctionCalling J B E req).1)
    = req_Stream req
  ∧ req_Tools (request (streamWithFunctionCalling J B E req).1)
    = GetAvailableTools B
  ∧ req_Messages req
    `prefix_of` req_Messages (request (streamWithFunctionCalling J B E req).1)
  ∧ Forall (λ q, req_Model q = req_Model req
                 ∧ req_Tools q = GetAvailableTools B
                 ∧ req_Messages req `prefix_of` req_Messages q)
           (opened (streamWithFunctionCalling J B E req).1)
  ∧ last (opened (streamWithFunctionCalling J B E req).1)
    = Some (request (streamWithFunctionCalling J B E req).1).
Proof.
  destruct (streamWithFunctionCalling_session J B E req)
    as (frames & n & [-> | (f & m & content & tcs & _ & ->)]); simpl.
  - repeat split; try done. repeat constructor; done.
  - repeat split; try done.
    + by apply prefix_app_r.
    + repeat constructor; try done. simpl. by apply prefix_app_r.
Qed.

(** X5. In a first round that is not interrupted the frames written
    start with exactly the responses that carry content or tool calls,
    among those received up to the first one marked done, in arrival
    order; when no tool is executed these are all the frames. *)
Theorem first_round_relays_in_order (J : JSON) (B : Backends) (E : Env)
    (req : ChatRequest) (stream : list ChatResponse) :
  client_ChatStream E (firstRequest B req) = Ok stream →
  uninterrupted J E 0 (received stream).1 (received stream).2 = true →
  (FrameData <$> filter (λ r, forwarded r = true) (received stream).1)
  `prefix_of` written (streamWithFunctionCalling J B E req).1
  ∧ (executed (streamWithFunctionCalling J B E req).1 = [] →
     written (streamWithFunctionCalling J B E req).1
     = FrameData <$> filter (λ r, forwarded r = true) (received stream).1).
Proof.
  intros Hstream Hu.
  pose proof (streamWithFunctionCalling_cases J B E req stream Hstream)
    as Hcases. cbn zeta in Hcases. rewrite Hu in Hcases.
  destruct (negb _ || bool_decide _); cbn [andb] in Hcases.
  - case_bool_decide as Hlen.
    + destruct Hcases as (frames & n & -> & _). simpl. split.
      * by apply prefix_app_r.
      * intros Hex. apply fmap_nil_inv in Hex. rewrite Hex in Hlen.
        simpl in Hlen. lia.
    + by rewrite Hcases.
  - by rewrite Hcases.
Qed.

Lemma first_round_relays_in_order_witness :
  written (streamWithFunctionCalling sample_JSON sample_Backends
             (scripted [contentDelta "a"; toolCallDeltas []; contentDelta "b";
                        completion "stop"; contentDelta "late"]
                       [] never range_forward)
             sample_request).1
  = [FrameData (contentDelta "a"); FrameData (contentDelta "b")].
Proof.
  rewrite (proj2 (first_round_relays_in_order sample_JSON sample_Backends
                    (scripted [contentDelta "a"; toolCallDeltas [];
                               contentDelta "b"; completion "stop";
                               contentDelta "late"]
                              [] never range_forward)
                    sample_request
                    [contentDelta "a"; toolCallDeltas []; contentDelta "b";
                     completion "stop"; contentDelta "late"]
                    eq_refl eq_refl)).
  - vm_compute. reflexivity.
  - vm_compute. reflexivity.
Defined.

(** ** The resumed round *)

Lemma uninterruptedFinal_nil J E from :
  uninterruptedFinal J E from [] false = negb (ctx_done E from).
Proof. unfold uninterruptedFinal. simpl. by rewrite !andb_true_r. Qed.

Lemma uninterruptedFinal_done J E from r :
  uninterruptedFinal J E from [r] true
  = negb (ctx_done E from) && negb (is_Err (Marshal J r)).
Proof. unfold uninterruptedFinal. simpl. by rewrite !andb_true_r. Qed.

Lemma uninterruptedFinal_cons J E from r seen completed :
  seen ≠ [] ∨ completed = false →
  uninterruptedFinal J E from (r :: seen) completed
  = negb (ctx_done E from) && negb (is_Err (Marshal J r))
    && uninterruptedFinal J E (S from) seen completed.
Proof.
  intros Hne. unfold uninterruptedFinal, selectsOf.
  assert ((if completed then length (r :: seen) else S (length (r :: seen)))
          = S (if completed then length seen else S (length seen))) as ->
    by (by destruct completed).
  simpl. destruct (ctx_done E from); simpl; [done |].
  destruct (forallb _ (seq _ _)); simpl; [done |].
  by rewrite andb_false_r.
Qed.

(** X6. A resumed round that is not interrupted forwards every response
    it receives, with or without content, up to and including the first
    one marked done, in arrival order, and nothing after it. *)
Theorem resumed_round_relays_everything (J : JSON) (E : Env) (s : Session)
    (stream : list ChatResponse) :
  uninterruptedFinal J E (selects s) (received stream).1 (received stream).2
  = true →
  finalLoop J E s stream
  = (advance s (FrameData <$> (received stream).1)
               (selectsOf (received stream).1 (received stream).2),
     if (received stream).2 then ExitDone else ExitClosed).
Proof.
  revert s. induction stream as [|r rest IH]; intros s.
  - cbn [received fst snd]. rewrite uninterruptedFinal_nil. intros Hc.
    apply negb_true_iff in Hc. cbn [finalLoop]. rewrite Hc. cbn zeta.
    unfold selected, advance, selectsOf. simpl.
    by rewrite app_nil_r, Nat.add_1_r.
  - cbn [received]. destruct (resp_Done r) eqn:Hd; cbn [fst snd].
    + rewrite uninterruptedFinal_done. intros [Hc Hm]%andb_true_iff.
      apply negb_true_iff in Hc, Hm. cbn [finalLoop]. rewrite Hc.
      cbn zeta. rewrite Hm, Hd.
      unfold write, selected, advance, selectsOf. simpl.
      by rewrite Nat.add_1_r.
    + rewrite uninterruptedFinal_cons
        by (destruct rest; [by right | left; apply received_nonempty]).
      intros [[Hc Hm]%andb_true_iff Hrest]%andb_true_iff.
      apply negb_true_iff in Hc, Hm. cbn [finalLoop]. rewrite Hc.
      cbn zeta. rewrite Hm, Hd.
      rewrite IH by (by simpl).
      unfold write, selected, advance, selectsOf. simpl.
      rewrite <- app_assoc. simpl.
      by destruct (received rest).2; rewrite ?Nat.add_succ_r.
Qed.

Lemma resumed_round_relays_everything_witness :
  finalLoop sample_JSON (scripted [] [] never range_forward)
    (Session_start sample_request)
    [contentDelta "a"; toolCallDeltas []; completion "stop"; contentDelta "late"]
  = (mkSession [FrameData (contentDelta "a"); FrameData (toolCallDeltas []);
                FrameData (completion "stop")]
               sample_request [] [] 3,
     ExitDone).
Proof.
  rewrite (resumed_round_relays_everything sample_JSON
             (scripted [] [] never range_forward)
             (Session_start sample_request)
             [contentDelta "a"; toolCallDeltas []; completion "stop";
              contentDelta "late"] eq_refl).
  vm_compute. reflexivity.
Defined.



(** X8. When the llama.cpp client cannot start the stream, whatever the
    reason (the request cannot be sent, or the back end answers with a
    status other than 200), the browser receives the single frame
    saying that the chat failed to start, without the status or the body
    of the answer, and nothing is executed. *)
Theorem backend_refusal_gives_one_frame (J : JSON) (B : Backends)
    (post : string → list ChatMessage → HTTPResult) (cancel : nat → bool)
    (R : MapRange) (req : ChatRequest) :
  (∀ lines scanErr, post (req_Model req) (req_Messages req)
                    ≠ HTTPStream lines scanErr) →
  streamWithFunctionCalling J B (mkEnv (ChatStream J post) cancel R) req
  = (mkSession [FrameError "Failed to start chat"] (firstRequest B req)
               [firstRequest B req] [] 0,
     ExitStartFailed).
Proof.
  intros Hno. rewrite streamWithFunctionCalling_start. cbn zeta. simpl.
  unfold ChatStream. simpl.
  destruct (post (req_Model req) (req_Messages req)) eqn:Hpost; try done.
  by destruct (Hno lines scanErr).
Qed.

Lemma backend_refusal_gives_one_frame_witness :
  written (streamWithFunctionCalling sample_JSON sample_Backends
             (mkEnv (ChatStream sample_JSON
                       (λ _ _, HTTPStatus 503 "loading model"))
                    never range_forward)
             sample_request).1
  = [FrameError "Failed to start chat"].
Proof.
  rewrite (backend_refusal_gives_one_frame sample_JSON sample_Backends
             (λ _ _, HTTPStatus 503 "loading model") never range_forward
             sample_request).
  - reflexivity.
  - intros lines scanErr. discriminate.
Defined.

(** ** The tool registry and the executor *)

(** X9. The listing offers exactly the enabled tools, in the order web
    search, news, portfolio, each once and each of type function; a
    disabled tool is left out, and with everything disabled the list is
    empty. *)
Theorem GetAvailableTools_lists_enabled_tools (B : Backends) :
  tool_Name <$> GetAvailableTools B
  = (if EnableWebSearch (toolSettings B) then ["web_search"] else [])
    ++ (if EnableFeeds (toolSettings B) then ["get_news"] else [])
    ++ (if EnableSentinel (toolSettings B) then ["analyze_portfolio"] else [])
  ∧ Forall (λ tool, tool_Type tool = "function") (GetAvailableTools B)
  ∧ NoDup (tool_Name <$> GetAvailableTools B)
  ∧ Forall (λ tool, registered (tool_Name tool)) (GetAvailableTools B).
Proof.
  unfold GetAvailableTools, registered.
  destruct (EnableWebSearch (toolSettings B)),
           (EnableFeeds (toolSettings B)),
           (EnableSentinel (toolSettings B)); simpl.
  all: split; [reflexivity |].
  all: split; [repeat constructor |].
  all: split; [| repeat constructor; simpl; tauto].
  all: compute_done.
Qed.

(** X10. The executor dispatches on the name alone: it never looks at
    the settings, so a tool that is disabled, and therefore not listed,
    is executed all the same when it is called; a name that is not
    registered gives the unknown-tool error once the arguments decode,
    and only a registered name can give a result. *)
Theorem ExecuteToolCall_dispatches_on_name_only (J : JSON) (B : Backends)
    (name arguments : string) :
  (∀ settings,
     ExecuteToolCall J (withSettings settings B) name arguments
     = ExecuteToolCall J B name arguments)
  ∧ (¬ registered name → is_Err (Unmarshal_map J arguments) = false →
     ExecuteToolCall J B name arguments = Err ("unknown tool: " +:+ name))
  ∧ (is_Err (ExecuteToolCall J B name arguments) = false → registered name).
Proof.
  unfold registered. split; [| split].
  - intros settings. reflexivity.
  - intros Hno Hdec. unfold ExecuteToolCall.
    destruct (Unmarshal_map J arguments) as [args | err]; [| done].
    repeat case_decide; try done; exfalso; apply Hno; auto.
  - unfold ExecuteToolCall.
    destruct (Unmarshal_map J arguments) as [args | err]; [| done].
    repeat case_decide; auto. done.
Qed.

Lemma ExecuteToolCall_dispatches_on_name_only_witness :
  ExecuteToolCall sample_JSON
    (withSettings (mkToolSettings false false false) sample_Backends)
    "get_news" "{}"
  = Ok ("Latest world news:" +:+ nl +:+ nl)
  ∧ ExecuteToolCall sample_JSON sample_Backends "unknown_tool" "{}"
    = Err "unknown tool: unknown_tool".
Proof.
  destruct (ExecuteToolCall_dispatches_on_name_only sample_JSON sample_Backends
              "get_news" "{}") as (Hsettings & _ & _).
  destruct (ExecuteToolCall_dispatches_on_name_only sample_JSON sample_Backends
              "unknown_tool" "{}") as (_ & Hunknown & _).
  split.
  - rewrite Hsettings. vm_compute. reflexivity.
  - rewrite Hunknown; [vm_compute; reflexivity | | reflexivity].
    intros [H | [H | H]]; discriminate H.
Defined.

(** X11. Portfolio analysis decodes its arguments a second time, into
    its own struct: when that fails the error is the invalid-arguments
    one although the first decoding succeeded; a query type outside the
    five known ones gives the unknown-query-type error that names it;
    and only one of the five query types can give a result. *)
Theorem analyze_portfolio_query_types (J : JSON) (B : Backends)
    (arguments : string) (args : gmap string JValue) :
  Unmarshal_map J arguments = Ok args →
  (∀ err, Unmarshal_portfolio J arguments = Err err →
          ExecuteToolCall J B "analyze_portfolio" arguments
          = Err ("invalid arguments: " +:+ err))
  ∧ (∀ decoded,
       Unmarshal_portfolio J arguments = Ok decoded →
       QueryType decoded ∉ [""; "overview"; "opportunities"; "risk";
                            "market_context"; "full_analysis"] →
       ExecuteToolCall J B "analyze_portfolio" arguments
       = Err ("unknown query_type: " +:+ QueryType decoded))
  ∧ (∀ decoded,
       Unmarshal_portfolio J arguments = Ok decoded →
       is_Err (ExecuteToolCall J B "analyze_portfolio" arguments) = false →
       QueryType decoded ∈ ["overview"; "opportunities"; "risk";
                            "market_context"; "full_analysis"]).
Proof.
  intros Hmap. unfold ExecuteToolCall. rewrite Hmap. simpl.
  unfold executeAnalyzePortfolio. split; [| split].
  - intros err ->. done.
  - intros decoded -> Hnot.
    repeat case_decide; try done.
    all: exfalso; apply Hnot;
      match goal with H : QueryType _ = _ |- _ => rewrite H end;
      rewrite !elem_of_cons; tauto.
  - intros decoded ->.
    repeat case_decide; try done.
    all: intros _;
      match goal with H : QueryType _ = _ |- _ => rewrite H end;
      rewrite !elem_of_cons; tauto.
Qed.

Lemma analyze_portfolio_query_types_witness :
  ExecuteToolCall
    (mkJSON (Unmarshal_map sample_JSON)
            (λ _, Ok (mkPortfolioArgs "performance" ""))
            (Unmarshal_chunk sample_JSON) (Marshal sample_JSON))
    sample_Backends "analyze_portfolio" "{}"
  = Err "unknown query_type: performance".
Proof.
  destruct (analyze_portfolio_query_types
              (mkJSON (Unmarshal_map sample_JSON)
                      (λ _, Ok (mkPortfolioArgs "performance" ""))
                      (Unmarshal_chunk sample_JSON) (Marshal sample_JSON))
              sample_Backends "{}" ∅ eq_refl) as (_ & Hunknown & _).
  rewrite (Hunknown (mkPortfolioArgs "performance" "") eq_refl).
  - vm_compute. reflexivity.
  - simpl. rewrite !elem_of_cons, elem_of_nil.
    intros H. repeat destruct H as [H | H]; discriminate H || done.
Defined.

(** X12. The full analysis never fails and reports exactly what
    succeeded: the report is the header followed by the sections of the
    analyses that returned no error, each with its own title and text,
    in the order state, opportunities, risk, market; an analysis that
    fails is left out without a trace, whichever of the others fail or
    succeed. This is what the executor returns for the query type
    full_analysis, whatever the focus area. *)
Theorem executeFullAnalysis_reports_what_succeeds (J : JSON) (B : Backends)
    (arguments : string) (args : gmap string JValue)
    (decoded : PortfolioArgs) :
  Unmarshal_map J arguments = Ok args →
  Unmarshal_portfolio J arguments = Ok decoded →
  QueryType decoded = "full_analysis" →
  let report :=
    fullAnalysisHeader
    +:+ sectionText "## Portfolio State" (executePortfolioOverview B)
    +:+ sectionText "## Trading Opportunities"
                    (executeOpportunitiesAnalysis B)
    +:+ sectionText "## Risk Assessment" (executeRiskAnalysis B)
    +:+ sectionText "## Market Context" (executeMarketContextAnalysis B) in
  ExecuteToolCall J B "analyze_portfolio" arguments = Ok report
  ∧ ∀ focusArea, executeFullAnalysis B focusArea = Ok report.
Proof.
  intros Hmap Hdecoded Htype report.
  assert (∀ focusArea, executeFullAnalysis B focusArea = Ok report) as Hbody.
  { intros focusArea. subst report. unfold executeFullAnalysis.
    destruct (executePortfolioOverview B), (executeOpportunitiesAnalysis B),
             (executeRiskAnalysis B), (executeMarketContextAnalysis B);
      simpl; by rewrite ?string_app_assoc, ?string_app_nil_r. }
  split; [| exact Hbody].
  unfold ExecuteToolCall. rewrite Hmap. simpl.
  unfold executeAnalyzePortfolio. rewrite Hdecoded, Htype. simpl.
  apply Hbody.
Qed.

Lemma executeFullAnalysis_reports_what_succeeds_witness :
  ExecuteToolCall
    (mkJSON (Unmarshal_map sample_JSON)
            (λ _, Ok (mkPortfolioArgs "full_analysis" "risk"))
            (Unmarshal_chunk sample_JSON) (Marshal sample_JSON))
    (mkBackends (Search sample_Backends) (FetchNews sample_Backends) []
                (mkToolSettings false false true)
                (Err "failed to get portfolio summary: timeout")
                (Ok "No opportunities.")
                (Err "failed to get risk metrics: timeout")
                (Ok "Regime: neutral."))
    "analyze_portfolio" "{}"
  = Ok (fullAnalysisHeader
        +:+ "## Trading Opportunities" +:+ nl +:+ "No opportunities." +:+ nl
        +:+ "## Market Context" +:+ nl +:+ "Regime: neutral." +:+ nl).
Proof.
  apply (executeFullAnalysis_reports_what_succeeds
           (mkJSON (Unmarshal_map sample_JSON)
                   (λ _, Ok (mkPortfolioArgs "full_analysis" "risk"))
                   (Unmarshal_chunk sample_JSON) (Marshal sample_JSON))
           (mkBackends (Search sample_Backends) (FetchNews sample_Backends) []
                       (mkToolSettings false false true)
                       (Err "failed to get portfolio summary: timeout")
                       (Ok "No opportunities.")
                       (Err "failed to get risk metrics: timeout")
                       (Ok "Regime: neutral."))
           "{}" ∅ (mkPortfolioArgs "full_analysis" "risk"));
    reflexivity.
Defined.

(** ** The client's reading of the event stream *)

Lemma streamEvents_last_line J model line post post' scanErr scanErr' :
  lastLine J line →
  streamEvents J model (line :: post) scanErr
  = streamEvents J model (line :: post') scanErr'
  ∧ ∃ r, streamEvents J model (line :: post) scanErr = [r]
         ∧ resp_Done r = true.
Proof.
  intros [-> | (Hprefix & Hlast)].
  - simpl. split; [done |]. eexists. split; [done |]. done.
  - simpl. case_decide as Hempty; [by subst |].
    case_decide as Hdone.
    { split; [done |]. eexists. split; [done |]. done. }
    rewrite Hprefix. simpl.
    destruct Hlast as [Herr | (chunk & choice & rest & -> & Hchoices & Hfin)].
    + destruct (Unmarshal_chunk J _); [done |].
      split; [done |]. eexists. split; [done |]. done.
    + rewrite Hchoices. rewrite !decide_True by done.
      split; [done |]. eexists. split; [done |].
      simpl. by rewrite bool_decide_true.
Qed.

(** X13. The client's goroutine sends the same events whether or not
    the body contains empty lines and lines without the data prefix
    (comments, event names, keep-alives): such lines are dropped
    wherever they stand. *)
Theorem streamEvents_ignores_skipped_lines (J : JSON) (model : string)
    (lines : list string) (scanErr : option string) :
  streamEvents J model (filter (λ line, ¬ skipped line) lines) scanErr
  = streamEvents J model lines scanErr.
Proof.
  induction lines as [| line lines IH]; [done |].
  rewrite filter_cons. case_decide as Hskip.
  - simpl. rewrite IH.
    case_decide as Hempty; [exfalso; apply Hskip; by left |].
    destruct (String.prefix "data: " line) eqn:Hprefix;
      [| exfalso; apply Hskip; by right].
    done.
  - rewrite IH. simpl.
    destruct Hskip as [-> | Hprefix]; [done |].
    case_decide as Hempty; [done |].
    case_decide as Hdone; [by subst |].
    by rewrite Hprefix.
Qed.

(** X14. The goroutine returns at the end marker, at a data line that
    does not parse and at a chunk whose first choice has a finish
    reason: whatever follows such a line in the body, and whether the
    scanner ends with an error, changes nothing, and the last event
    sent is marked done. *)
Theorem streamEvents_stops_at_last_line (J : JSON) (model : string)
    (pre : list string) (line : string) (post post' : list string)
    (scanErr scanErr' : option string) :
  lastLine J line →
  streamEvents J model (pre ++ line :: post) scanErr
  = streamEvents J model (pre ++ line :: post') scanErr'
  ∧ ∃ seen r,
      streamEvents J model (pre ++ line :: post) scanErr = seen ++ [r]
      ∧ resp_Done r = true.
Proof.
  intros Hlast.
  induction pre as [| first pre [IHeq (seen & r & IHshape & IHdone)]].
  - destruct (streamEvents_last_line J model line post post' scanErr scanErr'
                Hlast) as (Heq & r & Hshape & Hdone).
    split; [exact Heq |]. exists [], r. done.
  - simpl.
    case_decide as Hempty; [split; [done | by exists seen, r] |].
    case_decide as Hdone;
      [split; [done |]; by exists [], (mkChatResponse model ChatMessage_zero
                                        true "" "") |].
    destruct (negb (String.prefix "data: " first));
      [split; [done | by exists seen, r] |].
    destruct (Unmarshal_chunk J _) as [chunk | err];
      [| split; [done |]; by eexists [], _].
    destruct (chunk_Choices chunk) as [| choice rest];
      [split; [done | by exists seen, r] |].
    case_decide as Hfin.
    + split; [done |]. exists [], (choiceResponse chunk choice).
      split; [done |]. simpl. by rewrite bool_decide_true.
    + split; [by rewrite IHeq |].
      exists (choiceResponse chunk choice :: seen), r.
      by rewrite IHshape.
Qed.

Lemma streamEvents_stops_at_last_line_witness :
  streamEvents sample_JSON "m"
    ([": keep-alive"; "data: " +:+ chunk_hi] ++ "data: [DONE]"
     :: ["data: " +:+ chunk_hi]) (Some "unexpected EOF")
  = streamEvents sample_JSON "m"
      ([": keep-alive"; "data: " +:+ chunk_hi] ++ "data: [DONE]" :: []) None.
Proof.
  apply (streamEvents_stops_at_last_line sample_JSON "m"
           [": keep-alive"; "data: " +:+ chunk_hi] "data: [DONE]"
           ["data: " +:+ chunk_hi] [] (Some "unexpected EOF") None).
  by left.
Defined.

(** ** The client's base URL *)

Lemma prefix_append (p s : string) : String.prefix p (p +:+ s) = true.
Proof.
  induction p as [| a p IH]; [by destruct s |].
  change (String a p +:+ s) with (String a (p +:+ s)). simpl.
  by destruct (Ascii.ascii_dec a a).
Qed.

(** X15. [New] never fails and always gives a base URL that starts with
    a scheme: the default for the empty host, the host itself when it
    has a scheme, and the host after the plain scheme otherwise; on its
    own result it changes nothing. *)
Theorem New_gives_a_base_URL (host : string) :
  ∃ url,
    New host = Ok url
    ∧ (String.prefix "http://" url = true
       ∨ String.prefix "https://" url = true)
    ∧ New url = Ok url
    ∧ (host = "" → url = "http://localhost:8080")
    ∧ (String.prefix "http://" host = true
       ∨ String.prefix "https://" host = true → url = host)
    ∧ (host ≠ "" → String.prefix "http://" host = false →
       String.prefix "https://" host = false → url = "http://" +:+ host).
Proof.
  unfold New. case_decide as Hempty.
  - subst host. simpl. eexists. split; [done |].
    repeat split; try done; try (by left).
    intros [H | H]; discriminate H.
  - destruct (String.prefix "http://" host) eqn:Hhttp.
    + simpl. exists host. split; [done |]. split; [by left |].
      rewrite decide_False by done. rewrite Hhttp. done.
    + destruct (String.prefix "https://" host) eqn:Hhttps.
      * simpl. exists host. split; [done |]. split; [by right |].
        rewrite decide_False by done. rewrite Hhttp, Hhttps. done.
      * simpl. exists ("http://" +:+ host). split; [done |].
        split; [left; apply prefix_append |].
        rewrite decide_False by (intros H; lazy in H; discriminate H).
        rewrite prefix_append. simpl.
        split; [done |]. split; [done |].
        split; [| done]. intros [H | H]; discriminate H.
Qed.

(** ** The entry point of the chat handler *)

(** X16. [Stream] only starts streaming for a request that decoded,
    names a model, has at least one message and whose writer can flush;
    then every request sent to the chat client names that model and has
    a non-empty history. *)
Theorem Stream_only_streams_valid_requests (J : JSON) (B : Backends)
    (E : Env) (decoded : Result ChatRequest) (canFlush : bool)
    (res : Session * Exit) :
  Stream J B E decoded canFlush = Streamed res →
  ∃ req,
    decoded = Ok req
    ∧ req_Model req ≠ ""
    ∧ req_Messages req ≠ []
    ∧ canFlush = true
    ∧ res = streamWithFunctionCalling J B E req
    ∧ Forall (λ q, req_Model q = req_Model req ∧ req_Messages q ≠ [])
             (opened res.1).
Proof.
  unfold Stream. destruct decoded as [req | err]; [| done].
  case_decide as Hmodel; [done |].
  case_decide as Hmessages; [done |].
  destruct canFlush; [| done]. simpl.
  intros [= <-]. exists req.
  assert (req_Messages req ≠ []) as Hne.
  { intros Hnil. by rewrite Hnil in Hmessages. }
  do 5 (split; [done |]).
  destruct (streamWithFunctionCalling_session J B E req)
    as (frames & n & [-> | (f & m & content & tcs & _ & ->)]); simpl.
  - repeat constructor; done.
  - repeat constructor; try done. simpl.
    intros Happ. apply app_eq_nil in Happ. by destruct Happ.
Qed.

Lemma Stream_only_streams_valid_requests_witness :
  ∃ req,
    Ok sample_request = Ok req
    ∧ req_Model req ≠ ""
    ∧ req_Messages req ≠ []
    ∧ true = true
    ∧ streamWithFunctionCalling sample_JSON sample_Backends
        (scripted [contentDelta "hi"; completion "stop"] [] never
                  range_forward) sample_request
      = streamWithFunctionCalling sample_JSON sample_Backends
          (scripted [contentDelta "hi"; completion "stop"] [] never
                    range_forward) req
    ∧ Forall (λ q, req_Model q = req_Model req ∧ req_Messages q ≠ [])
             (opened
                (streamWithFunctionCalling sample_JSON sample_Backends
                   (scripted [contentDelta "hi"; completion "stop"] [] never
                             range_forward) sample_request).1).
Proof.
  apply (Stream_only_streams_valid_requests sample_JSON sample_Backends
           (scripted [contentDelta "hi"; completion "stop"] [] never
                     range_forward)
           (Ok sample_request) true).
  reflexivity.
Defined.

(** ** Unloading a model *)

(** X17. With the llama.cpp client behind it the unload handler never
    reports success: an empty model name is refused with status 400 and
    every other name gets status 500 with the client's message, whatever
    the encoder would do. *)
Theorem Unload_never_succeeds
    (encode : list (string * JValue) → option string) (modelName : string) :
  ∃ status message,
    Unload UnloadModel encode modelName = HttpError status message
    ∧ (modelName = "" →
       status = 400 ∧ message = "model name is required")
    ∧ (modelName ≠ "" →
       status = 500
       ∧ message = "Failed to unload model: "
                   +:+ "unload model is not supported by llama.cpp server").
Proof.
  unfold Unload, UnloadModel. case_decide as Hempty.
  - exists 400, "model name is required". done.
  - eexists _, _. split; [done |]. done.
Qed.

(** ** The tool settings store *)

Lemma substring_append (s rest : string) :
  String.substring 0 (String.length s) (s +:+ rest) = s.
Proof.
  induction s as [| a s IH]; [by destruct rest |].
  change (String a s +:+ rest) with (String a (s +:+ rest)). simpl.
  by rewrite IH.
Qed.

Lemma length_append (s rest : string) :
  String.length (s +:+ rest) = String.length s + String.length rest.
Proof.
  induction s as [| a s IH]; [done |].
  change (String a s +:+ rest) with (String a (s +:+ rest)). simpl.
  by rewrite IH.
Qed.

Lemma lastSlash_slashFree (base : string) (n : nat) :
  slashFree base → lastSlash base n = None.
Proof.
  intros Hfree. induction n as [| n IH]; [done |].
  simpl. rewrite decide_False by apply Hfree. exact IH.
Qed.

Lemma lastSlash_append (dir base : string) (n : nat) :
  slashFree base →
  lastSlash (dir +:+ "/" +:+ base) (String.length dir + 1 + n)
  = Some (String.length dir).
Proof.
  intros Hfree. induction n as [| n IH].
  - replace (String.length dir + 1 + 0) with (S (String.length dir)) by lia.
    simpl. rewrite decide_True; [done |].
    pose proof (String.append_correct2 dir ("/" +:+ base) 0) as Hget.
    cbn [Nat.add] in Hget. rewrite <- Hget. reflexivity.
  - replace (String.length dir + 1 + S n)
      with (S (String.length dir + 1 + n)) by lia.
    simpl. rewrite decide_False; [exact IH |].
    replace (String.length dir + 1 + n)
      with (S n + String.length dir) by lia.
    rewrite <- (String.append_correct2 dir ("/" +:+ base) (S n)).
    exact (Hfree n).
Qed.

(** X18. The loop of [Save] that looks for the directory splits the
    path at its last slash: with a file name that has no slash, the
    directory of dir/name is dir, and a bare name has the empty
    directory, for which no directory is created. *)
Theorem dirOf_splits_at_last_slash (dir base : string) :
  slashFree base →
  dirOf (dir +:+ "/" +:+ base) = dir ∧ dirOf base = "".
Proof.
  intros Hfree. unfold dirOf. split.
  - replace (String.length (dir +:+ "/" +:+ base))
      with (String.length dir + 1 + String.length base).
    + rewrite lastSlash_append by done. apply substring_append.
    + rewrite !length_append. simpl. lia.
  - by rewrite lastSlash_slashFree.
Qed.

Lemma dirOf_splits_at_last_slash_witness :
  dirOf ("/etc/gollama" +:+ "/" +:+ "tools.json") = "/etc/gollama"
  ∧ dirOf "tools.json" = "".
Proof.
  apply (dirOf_splits_at_last_slash "/etc/gollama" "tools.json").
  intros i.
  do 11 (destruct i as [| i]; [discriminate |]). discriminate.
Defined.

Lemma Save_success (D : Disk) (fs : FS D) (ts : SettingsStore) :
  (Save D fs ts).2 = None →
  configPath ts ≠ ""
  ∧ ∃ before data,
      MarshalIndent D (Get ts) = Ok data
      ∧ WriteFile D before (configPath ts) data = Ok (Save D fs ts).1.
Proof.
  unfold Save, Get. case_decide as Hpath; [done |].
  destruct (if decide (dirOf (configPath ts) ≠ "") then _ else _)
    as [before | err]; [| done].
  destruct (MarshalIndent D _) as [data | err]; [| done].
  destruct (WriteFile D before _ data) as [after | err] eqn:Hwrite; [| done].
  intros _. split; [done |]. by exists before, data.
Qed.

(** X19. What [Set] saved is what a new store reads back: if reading a
    file gives what was last written to it and the decoder inverts the
    encoder, then after a [Set] that reports no error a store created
    on the same path holds the three flags that were set. *)
Theorem Set_then_reload_round_trip (D : Disk) (fs : FS D)
    (ts : SettingsStore) (webSearch feeds sentinel : bool) :
  (∀ before path data after,
     WriteFile D before path data = Ok after →
     ReadFile D after path = Contents data) →
  (∀ settings data,
     MarshalIndent D settings = Ok data →
     UnmarshalSettings D data = Ok settings) →
  (Set_ D fs ts webSearch feeds sentinel).2.2 = None →
  Get (NewToolSettings D (Set_ D fs ts webSearch feeds sentinel).2.1
                       (configPath ts))
  = mkToolSettings webSearch feeds sentinel.
Proof.
  intros Hread Hcodec Hsaved. unfold Set_ in *. simpl in *.
  destruct (Save_success D fs _ Hsaved) as (Hpath & before & data & Hdata
                                            & Hwrite).
  simpl in Hpath, Hdata, Hwrite.
  unfold NewToolSettings, Load. simpl.
  rewrite decide_False by done.
  rewrite (Hread _ _ _ _ Hwrite).
  rewrite (Hcodec _ _ Hdata). done.
Qed.

Lemma Set_then_reload_round_trip_witness :
  Get (NewToolSettings sample_Disk
         (Set_ sample_Disk ∅
               (mkSettingsStore (mkToolSettings false true false)
                                "config/tools.json")
               true false true).2.1
         "config/tools.json")
  = mkToolSettings true false true.
Proof.
  apply (Set_then_reload_round_trip sample_Disk ∅
           (mkSettingsStore (mkToolSettings false true false)
                            "config/tools.json")
           true false true).
  - intros before path data after [= <-]. simpl.
    by rewrite lookup_insert_eq.
  - intros [[] [] []] data [= <-]; reflexivity.
  - reflexivity.
Defined.

(** X20. A load that reports an error leaves the store as it was, and
    the error says whether reading or parsing failed; a new store
    created on such a file drops the error and starts with all three
    tools disabled. *)
Theorem Load_failure_keeps_store (D : Disk) (fs : FS D) (ts : SettingsStore)
    (err : string) :
  (Load D fs ts).2 = Some err →
  (Load D fs ts).1 = ts
  ∧ configPath ts ≠ ""
  ∧ ((∃ cause, ReadFile D fs (configPath ts) = ReadFailed cause
               ∧ err = "failed to read tool settings: " +:+ cause)
     ∨ (∃ data cause, ReadFile D fs (configPath ts) = Contents data
                      ∧ UnmarshalSettings D data = Err cause
                      ∧ err = "failed to parse tool settings: " +:+ cause))
  ∧ Get (NewToolSettings D fs (configPath ts))
    = mkToolSettings false false false.
Proof.
  unfold NewToolSettings, Load. simpl.
  case_decide as Hpath; [done |].
  destruct (ReadFile D fs (configPath ts)) as [| cause | data]; [done | |].
  - intros [= <-]. split; [done |]. split; [done |].
    split; [| done]. left. by exists cause.
  - destruct (UnmarshalSettings D data) as [settings | cause] eqn:Hparse;
      [done |].
    intros [= <-]. split; [done |]. split; [done |].
    split; [| done]. right. by exists data, cause.
Qed.

Lemma Load_failure_keeps_store_witness :
  (Load sample_Disk {[ "tools.json" := "{" ]}
        (mkSettingsStore (mkToolSettings true true false) "tools.json")).1
  = mkSettingsStore (mkToolSettings true true false) "tools.json".
Proof.
  apply (Load_failure_keeps_store sample_Disk {[ "tools.json" := "{" ]}
           (mkSettingsStore (mkToolSettings true true false) "tools.json")
           ("failed to parse tool settings: "
            +:+ "unexpected end of JSON input")).
  reflexivity.
Defined.

(** ** Defaults of the tool arguments *)

(** X21. An argument that is missing or has the wrong JSON type is
    replaced by its default: a search without a numeric max_results
    asks for 5 results, news without a numeric max_articles asks for 10
    articles, and news without a non-empty string topic is fetched for
    the topic world. *)
Theorem tool_arguments_have_defaults (B : Backends)
    (args : gmap string JValue) :
  ((∀ n, args !! "max_results" ≠ Some (JNumber n)) →
   executeWebSearch B args
   = executeWebSearch B (<["max_results" := JNumber 5]> args))
  ∧ ((∀ n, args !! "max_articles" ≠ Some (JNumber n)) →
     executeGetNews B args
     = executeGetNews B (<["max_articles" := JNumber 10]> args))
  ∧ ((∀ topic, topic ≠ "" → args !! "topic" ≠ Some (JString topic)) →
     executeGetNews B args
     = executeGetNews B (<["topic" := JString "world"]> args)).
Proof.
  split; [| split].
  - intros Hnone. unfold executeWebSearch.
    rewrite lookup_insert_ne by done. rewrite lookup_insert_eq.
    destruct (args !! "max_results") as [[] |] eqn:Hmax; try done.
    by destruct (Hnone n).
  - intros Hnone. unfold executeGetNews.
    rewrite lookup_insert_ne by done. rewrite lookup_insert_eq.
    destruct (args !! "max_articles") as [[] |] eqn:Hmax; try done.
    by destruct (Hnone n).
  - intros Hnone. unfold executeGetNews.
    rewrite lookup_insert_eq. rewrite lookup_insert_ne by done.
    destruct (args !! "topic") as [[] |] eqn:Htopic; try done.
    simpl. case_bool_decide as Hempty; [done |].
    by destruct (Hnone s).
Qed.

Lemma tool_arguments_have_defaults_witness :
  executeGetNews sample_Backends {[ "topic" := JNumber 7 ]}
  = executeGetNews sample_Backends
      (<["topic" := JString "world"]> {[ "topic" := JNumber 7 ]}).
Proof.
  destruct (tool_arguments_have_defaults sample_Backends
              {[ "topic" := JNumber 7 ]}) as (_ & _ & Htopic).
  apply Htopic. intros topic _.
  rewrite lookup_singleton_eq. discriminate.
Defined.
